(** * logapi: the archival storage engine

    A shallow embedding of the Go packages [tarfs] (tarfs.go, compressor.go)
    and [logapi] (the HTTP handlers and the rotation sweep), followed by the
    properties of the storage engine.

    What the Go code gets from the operating system and from libraries is
    modelled as follows.

    - A file path is the list of its segments; [filepath.Join] is list
      concatenation.  Request-supplied components (user, date, name) are
      taken to be single segments.
    - The filesystem is a finite map from paths to nodes.  A node is a
      directory, a plain file holding bytes, or a container: the image of a
      tar stream under one of the compressors.  The compressors and the tar
      codec are free constructors: decoding a container gives back the
      stream that was written, decoding anything else fails.
    - Every system call that can fail in the Go code consults a fault
      environment [faults], a predicate on (operation, path).  With
      [no_faults] the only errors are those the filesystem state itself
      causes (a missing file, a missing directory).
    - [time.Time] is an instant: nanoseconds since the Unix epoch, UTC.  The
      civil calendar is computed from it. *)

From Stdlib Require Import ZArith Lia Ascii String.
From stdpp Require Import gmap strings list fin_maps sorting.

Open Scope string_scope.
Open Scope list_scope.
Open Scope Z_scope.

(** ** Common library types *)

Abbreviation bytes := (list Byte.byte).

(** A path as the list of its segments. *)
Abbreviation fpath := (list string).

(** The Go error values the code distinguishes or produces. *)
Inductive error :=
| EOF                                     (* io.EOF *)
| ErrCorrupt                              (* decoder or tar header error *)
| ErrNotExist                             (* fs.ErrNotExist *)
| ErrIsDir                                (* EISDIR and the like *)
| ErrIO                                   (* an injected system-call failure *)
| ErrUnsupportedFile (p : fpath)          (* "unsupported file format: %s" *)
| ErrUnsupportedFormat (f : string)       (* "unsupported format: %s" *)
| ErrFileNotFound (name : string)         (* "file %s not found" *)
| ErrExpected (want found : string)       (* "expected file %s, found %s" *)
| ErrUnsupportedCompression (f : string). (* "unsupported compression format: %s" *)

(** [archive/tar]: the type flag of an entry as [Reader.Next] reports it. *)
Inductive Typeflag :=
| TypeReg | TypeLink | TypeSymlink | TypeChar | TypeBlock | TypeDir | TypeFifo.

Definition is_TypeReg (t : Typeflag) : bool :=
  match t with TypeReg => true | _ => false end.

(** An entry of a tar stream: header fields and payload.  The declared size
    of a complete entry is the length of its payload. *)
Record tarEntry := mkEntry {
  Name : string;
  Flag : Typeflag;
  data : bytes
}.

Definition Size (e : tarEntry) : Z := Z.of_nat (length (data e)).

(** How a decoded stream ends: cleanly, or with a decode error (corrupt or
    cut short). *)
Inductive streamEnd := EndEOF | EndErr.

Record tarStream := mkStream {
  entries : list tarEntry;
  ending : streamEnd
}.

(** Filesystem nodes. *)
Inductive node :=
| NDir
| NFile (content : bytes)
| NTar (codec : string) (s : tarStream).

Abbreviation FS := (gmap fpath node).

(** System calls that the fault environment can make fail. *)
Inductive op :=
| OpStat | OpOpen | OpCreate | OpMkdirAll | OpReadDir | OpRename | OpRemoveAll
| OpLstat | OpNewWriter | OpWriteHeader | OpCopy
| OpCloseTar | OpCloseCompressor | OpCloseFile.

Definition faults := op -> fpath -> bool.

Definition no_faults : faults := fun _ _ => false.

#[global] Instance op_eq_dec : EqDecision op.
Proof. solve_decision. Defined.

(** [fail_at o p]: exactly the call [o] on path [p] fails. *)
Definition fail_at (o : op) (p : fpath) : faults :=
  fun o' p' => bool_decide (o' = o) && bool_decide (p' = p).

(** ** path/filepath *)

(** [filepath.Ext] on one segment: the suffix starting at the last dot. *)
Fixpoint Ext (s : string) : string :=
  match s with
  | EmptyString => ""
  | String c s' =>
      match Ext s' with
      | EmptyString => if Ascii.eqb c "."%char then s else ""
      | r => r
      end
  end.

Definition pathExt (p : fpath) : string :=
  match last p with Some s => Ext s | None => "" end.

(** A relative path printed with the separator. *)
Fixpoint joinSlash (p : fpath) : string :=
  match p with
  | [] => ""
  | [s] => s
  | s :: rest => s +:+ "/" +:+ joinSlash rest
  end.

(** Lexical order on paths, segment by segment: the order in which
    [filepath.Walk] visits a tree. *)
Fixpoint path_leb (p q : fpath) : bool :=
  match p, q with
  | [], _ => true
  | _ :: _, [] => false
  | a :: p', c :: q' =>
      if String.eqb a c then path_leb p' q' else String.ltb a c
  end.

(** [childName d k] is [Some n] when [k] is the path [d/n]. *)
Fixpoint childName (d k : fpath) : option string :=
  match d, k with
  | [], [n] => Some n
  | a :: d', c :: k' => if String.eqb a c then childName d' k' else None
  | _, _ => None
  end.

(** [strings.TrimPrefix]. *)
Definition TrimPrefix (s pre : string) : string :=
  if String.prefix pre s
  then String.substring (String.length pre) (String.length s - String.length pre) s
  else s.

(** [strings.TrimSuffix]: [stripSuffix s suf] is what precedes the suffix
    [suf] of [s], when [s] ends with it. *)
Fixpoint stripSuffix (s suf : string) : option string :=
  if String.eqb s suf then Some ""
  else match s with
       | EmptyString => None
       | String c s' => String c <$> stripSuffix s' suf
       end.

Definition TrimSuffix (s suf : string) : string :=
  default s (stripSuffix s suf).

(** The parent directory of a path. *)
Definition parent (p : fpath) : fpath := removelast p.

(** What reading a node as a plain file delivers.  The compressed bytes of
    a container are not modelled; where a container is read as a plain file
    the concatenation of its payloads stands for them. *)
Definition nodeBytes (n : node) : bytes :=
  match n with
  | NDir => []
  | NFile c => c
  | NTar _ s => concat (data <$> entries s)
  end.

(** ** Package os *)

Module os.

(** [os.Stat]: [None] when the path exists. *)
Definition Stat (flt : faults) (fs : FS) (p : fpath) : option error :=
  if flt OpStat p then Some ErrIO
  else match fs !! p with
       | Some _ => None
       | None => Some ErrNotExist
       end.

(** [os.IsNotExist]. *)
Definition IsNotExist (err : option error) : bool :=
  match err with Some ErrNotExist => true | _ => false end.

(** [os.Open] for reading; opening a directory succeeds. *)
Definition Open (flt : faults) (fs : FS) (p : fpath) : error + node :=
  if flt OpOpen p then inl ErrIO
  else match fs !! p with
       | Some n => inr n
       | None => inl ErrNotExist
       end.

(** [os.Create]: an empty file at [p], replacing a file that is there. *)
Definition Create (flt : faults) (fs : FS) (p : fpath) : error + FS :=
  if flt OpCreate p then inl ErrIO
  else match fs !! parent p, fs !! p with
       | Some NDir, Some NDir => inl ErrIsDir
       | Some NDir, _ => inr (<[p := NFile []]> fs)
       | _, _ => inl ErrNotExist
       end.

(** Does some proper or improper prefix of [p] name a file? *)
Definition blocked (fs : FS) (p : fpath) : bool :=
  existsb (fun k => match fs !! take k p with
                    | Some NDir | None => false
                    | Some _ => true
                    end) (seq 1 (length p)).

(** [os.MkdirAll]: the directory and all missing parents. *)
Definition MkdirAll (flt : faults) (fs : FS) (p : fpath) : error + FS :=
  if flt OpMkdirAll p then inl ErrIO
  else if blocked fs p then inl ErrIsDir
  else inr (foldr (fun k acc => <[take k p := NDir]> acc) fs (seq 1 (length p))).

(** [os.ReadDir]: the names in a directory with their is-directory bit,
    sorted by name. *)
Definition ReadDir (flt : faults) (fs : FS) (d : fpath)
  : error + list (string * bool) :=
  if flt OpReadDir d then inl ErrIO
  else match fs !! d with
       | Some NDir =>
           inr (merge_sort (fun x y => Is_true (String.leb x.1 y.1))
                  (omap (fun kv => match childName d kv.1 with
                                   | Some n => Some (n, match kv.2 with
                                                        | NDir => true
                                                        | _ => false
                                                        end)
                                   | None => None
                                   end) (map_to_list fs)))
       | Some _ => inl ErrIsDir
       | None => inl ErrNotExist
       end.

(** [os.Rename] of a file. *)
Definition Rename (flt : faults) (fs : FS) (src dst : fpath) : error + FS :=
  if flt OpRename dst then inl ErrIO
  else match fs !! src, fs !! dst with
       | None, _ => inl ErrNotExist
       | Some _, Some NDir => inl ErrIsDir
       | Some n, _ => inr (<[dst := n]> (delete src fs))
       end.

(** [os.RemoveAll]: the path and everything below it; no error when the
    path does not exist. *)
Definition RemoveAll (flt : faults) (fs : FS) (p : fpath) : option error * FS :=
  if flt OpRemoveAll p then (Some ErrIO, fs)
  else (None, filter (fun kv => ¬ p `prefix_of` kv.1) fs).

End os.

(** ** Package tarfs *)

Module tarfs.

(** TarFS is a streaming virtual filesystem for tar archives. *)
Record TarFS := mkTarFS {
  path : fpath;
  indices : gmap string nat;   (* last wins *)
  sizes : gmap string Z;
  format : string
}.

(** detectFormat infers compression format from file extension. *)
Definition detectFormat (p : fpath) : string :=
  let ext := pathExt p in
  if String.eqb ext ".zst" then "zst"
  else if String.eqb ext ".br" then "br"
  else if String.eqb ext ".gz" then "gz"
  else if String.eqb ext ".bz2" then "bz2"
  else if String.eqb ext ".xz" then "xz"
  else "".

(** The decompressed tar stream behind an open file, as the reader that
    [newTarReader] builds will deliver it.  A file that is not a container
    written with this very compressor does not decode. *)
Definition decodeAs (fmt : string) (n : node) : tarStream :=
  match n with
  | NTar codec s => if String.eqb codec fmt then s else mkStream [] EndErr
  | _ => mkStream [] EndErr
  end.

(** newTarReader creates a reader for the specified compression format. *)
Definition newTarReader (f : node) (fmt : string) : error + tarStream :=
  if String.eqb fmt "gz" then inr (decodeAs fmt f)
  else if String.eqb fmt "bz2" then inr (decodeAs fmt f)
  else if String.eqb fmt "zst" then inr (decodeAs fmt f)
  else if String.eqb fmt "xz" then inr (decodeAs fmt f)
  else inl (ErrUnsupportedFormat fmt).

(** [tar.Reader]: the entries not yet returned and the end of the stream. *)
Definition Next (r : tarStream) : error + (tarEntry * tarStream) :=
  match entries r with
  | e :: rest => inr (e, mkStream rest (ending r))
  | [] => match ending r with
          | EndEOF => inl EOF
          | EndErr => inl ErrCorrupt
          end
  end.

(** The indexing loop of NewTarFS, [for i := 0; true; i++], from the state
    reached at ordinal [i].  The match on the remaining entries is the call
    [tarReader.Next()]; see [scan_Next]. *)
Fixpoint scan (es : list tarEntry) (fin : streamEnd) (i : nat) (fs : TarFS)
  : error + TarFS :=
  match es with
  | [] => match fin with
          | EndEOF => inr fs          (* err == io.EOF: break *)
          | EndErr => inl ErrCorrupt  (* err != nil: return nil, err *)
          end
  | e :: rest =>
      if is_TypeReg (Flag e) then
        scan rest fin (S i)
          (mkTarFS (path fs) (<[Name e := i]> (indices fs))
                   (<[Name e := Size e]> (sizes fs)) (format fs))
      else scan rest fin (S i) fs
  end.

(** NewTarFS scans a tar archive to index file offsets and sizes. *)
Definition NewTarFS (flt : faults) (fs : FS) (p : fpath) : error + TarFS :=
  let fmt := detectFormat p in
  if String.eqb fmt "" then inl (ErrUnsupportedFile p)
  else match os.Open flt fs p with
       | inl err => inl err
       | inr f =>
           match newTarReader f fmt with
           | inl err => inl err
           | inr tr => scan (entries tr) (ending tr) 0 (mkTarFS p ∅ ∅ fmt)
           end
       end.

(** The loop of Get, [for i := 0; i <= index; i++]: [n] calls of Next,
    keeping the last header. *)
Fixpoint advance (n : nat) (r : tarStream) (h : option tarEntry)
  : error + option tarEntry :=
  match n with
  | O => inr h
  | S k => match Next r with
           | inl err => inl err
           | inr (e, r') => advance k r' (Some e)
           end
  end.

(** Get fetches a specific file's contents from the tar archive.  The
    result is what the returned reader delivers: the payload of the entry
    the tar reader stands at.  The deferred close of the file handle is not
    modelled: the reader is taken to deliver the whole payload. *)
Definition Get (flt : faults) (fs : FS) (t : TarFS) (member : string)
  : error + bytes :=
  match indices t !! member with
  | None => inl (ErrFileNotFound member)
  | Some index =>
      match os.Open flt fs (path t) with
      | inl err => inl err
      | inr f =>
          match newTarReader f (format t) with
          | inl err => inl err
          | inr tr =>
              match advance (S index) tr None with
              | inl err => inl err
              | inr None => inl ErrCorrupt
              | inr (Some h) =>
                  if String.eqb (Name h) member then inr (data h)
                  else inl (ErrExpected member (Name h))
              end
          end
      end
  end.

(** [maps.Keys] of the index, in the order the map yields them. *)
Definition EntryPaths (t : TarFS) : list string :=
  (map_to_list (indices t)).*1.

(** *** compressor.go *)

(** How a Go call ends: it returns its error value, or it panics. *)
Inductive outcome :=
| Return (err : option error)
| Panic (msg : string).

(** The tar writer chosen by the switch on [format]: [Some] when a writer
    was built, [None] when [tw] is still the nil pointer. *)
Inductive writerChoice :=
| Writer (tw : bool)                (* [tw] is non-nil behind a compressor *)
| WriterErr (e : error)             (* the compressor constructor failed *)
| WriterPanic.                      (* panic(fmt.Errorf("bzip2 has no writer")) *)

Definition chooseWriter (flt : faults) (tarPath : fpath) (fmt : string)
  : writerChoice :=
  if String.eqb fmt "gz" then
    if flt OpNewWriter tarPath then WriterErr ErrIO else Writer true
  else if String.eqb fmt "bz2" then WriterPanic
  else if String.eqb fmt "zst" then
    if flt OpNewWriter tarPath then WriterErr ErrIO else Writer true
  else if String.eqb fmt "xz" then
    if flt OpNewWriter tarPath then WriterErr ErrIO else Writer true
  else Writer false.

(** The paths [filepath.Walk root] visits, in walk order: the root and
    everything below it. *)
Definition walkOrder (fs : FS) (root : fpath) : list (fpath * node) :=
  merge_sort (fun x y => Is_true (path_leb x.1 y.1))
    (filter (fun kv => root `prefix_of` kv.1) (map_to_list fs)).

(** [filepath.Rel(dataDir, path)] for a path below [dataDir]. *)
Definition Rel (dataDir p : fpath) : string :=
  joinSlash (drop (length dataDir) p).

(** How the walk ended, with the entries completely written so far.
    [clean] tells whether the tar writer was left between entries. *)
Inductive walkResult :=
| WalkOk (written : list tarEntry)
| WalkErr (e : error) (written : list tarEntry) (clean : bool)
| WalkPanic.

(** The walk with its callback, over the paths still to visit. *)
Fixpoint walkFiles (flt : faults) (tw : bool) (dataDir : fpath)
  (todo : list (fpath * node)) (written : list tarEntry) : walkResult :=
  match todo with
  | [] => WalkOk written
  | (p, n) :: rest =>
      if flt OpLstat p then WalkErr ErrIO written true     (* if err != nil *)
      else match n with
           | NDir =>                                       (* info.IsDir() *)
               if flt OpReadDir p then WalkErr ErrIO written true
               else walkFiles flt tw dataDir rest written
           | _ =>
               let relPath := Rel dataDir p in
               if negb tw then WalkPanic                   (* tw.WriteHeader on nil *)
               else if flt OpWriteHeader p then WalkErr ErrIO written false
               else if flt OpOpen p then WalkErr ErrIO written false
               else if flt OpCopy p then WalkErr ErrIO written false
               else walkFiles flt tw dataDir rest
                      (written ++ [mkEntry relPath TypeReg (nodeBytes n)])
           end
  end.

(** [filepath.Walk(root, fn)]: a root that cannot be examined is reported
    to the callback, which returns the error. *)
Definition Walk (flt : faults) (fs : FS) (tw : bool) (dataDir root : fpath)
  : walkResult :=
  match fs !! root with
  | None => WalkErr ErrNotExist [] true
  | Some _ => walkFiles flt tw dataDir (walkOrder fs root) []
  end.

(** The deferred closes, run innermost first with their errors dropped:
    do they all succeed? *)
Definition closesOk (flt : faults) (tarPath : fpath) : bool :=
  negb (flt OpCloseTar tarPath)
  && negb (flt OpCloseCompressor tarPath)
  && negb (flt OpCloseFile tarPath).

(** The container file as the call leaves it. *)
Definition container (fmt : string) (written : list tarEntry) (finalized : bool)
  : node :=
  NTar fmt (mkStream written (if finalized then EndEOF else EndErr)).

Definition CompressDir (flt : faults) (fs : FS) (dataDir : fpath)
  (date fmt : string) : outcome * FS :=
  let tarPath := dataDir ++ [date +:+ ".tar." +:+ fmt] in
  if negb (os.IsNotExist (os.Stat flt fs tarPath)) then
    (Return None, fs)            (* Skip if tarball already exists *)
  else
    match os.Create flt fs tarPath with
    | inl err => (Return (Some err), fs)
    | inr fs1 =>
        match chooseWriter flt tarPath fmt with
        | WriterErr err => (Return (Some err), fs1)
        | WriterPanic => (Panic "bzip2 has no writer", fs1)
        | Writer tw =>
            let root := dataDir ++ [date] in
            match Walk flt fs1 tw dataDir root with
            | WalkPanic => (Panic "nil pointer dereference", fs1)
            | WalkErr err written clean =>
                if negb tw then (Panic "nil pointer dereference", fs1)
                else (Return (Some err),
                      <[tarPath := container fmt written
                                     (clean && closesOk flt tarPath)]> fs1)
            | WalkOk written =>
                if negb tw then (Panic "nil pointer dereference", fs1)
                else (Return None,
                      <[tarPath := container fmt written
                                     (closesOk flt tarPath)]> fs1)
            end
        end
    end.

Definition CompressAndRemove (flt : faults) (fs : FS) (dataDir : fpath)
  (date fmt : string) : outcome * FS :=
  match CompressDir flt fs dataDir date fmt with
  | (Return None, fs1) =>
      let '(err, fs2) := os.RemoveAll flt fs1 (dataDir ++ [date]) in
      (Return err, fs2)
  | r => r
  end.

End tarfs.

(** ** Package time (the part the server uses, UTC only) *)

Module time.

(** An instant: nanoseconds since 1970-01-01T00:00:00Z. *)
Abbreviation Time := Z.

Definition nsPerDay : Z := 86400 * 1000000000.

(** Days from the epoch to the civil date [y-m-d] of the proleptic
    Gregorian calendar, for a month from 1 to 12. *)
Definition civilDays (y m d : Z) : Z :=
  let y' := if m <=? 2 then y - 1 else y in
  let era := y' / 400 in
  let yoe := y' - era * 400 in
  let mp := (m + 9) mod 12 in
  let doy := (153 * mp + 2) / 5 + d - 1 in
  let doe := yoe * 365 + yoe / 4 - yoe / 100 + doy in
  era * 146097 + doe - 719468.

(** The same for the arguments of [time.Date], where the month may lie
    outside 1..12 and the day outside the month: the month is normalised
    into the year, the day counts on linearly. *)
Definition daysFromCivil (y m d : Z) : Z :=
  civilDays (y + (m - 1) / 12) ((m - 1) mod 12 + 1) d.

(** The civil date of a day number: (year, month, day). *)
Definition civilFromDays (z : Z) : Z * Z * Z :=
  let z := z + 719468 in
  let era := z / 146097 in
  let doe := z - era * 146097 in
  let yoe := (doe - doe / 1460 + doe / 36524 - doe / 146096) / 365 in
  let doy := doe - (365 * yoe + yoe / 4 - yoe / 100) in
  let mp := (5 * doy + 2) / 153 in
  let d := doy - (153 * mp + 2) / 5 + 1 in
  let m := if mp <? 10 then mp + 3 else mp - 9 in
  let y := yoe + era * 400 in
  (if m <=? 2 then y + 1 else y, m, d).

(** [time.Date(year, month, day, hour, min, sec, nsec, time.UTC)]. *)
Definition Date (year month day hour min sec nsec : Z) : Time :=
  (daysFromCivil year month day * 86400 + hour * 3600 + min * 60 + sec)
  * 1000000000 + nsec.

Definition Year (t : Time) : Z := (civilFromDays (t / nsPerDay)).1.1.
Definition Month (t : Time) : Z := (civilFromDays (t / nsPerDay)).1.2.
Definition Day (t : Time) : Z := (civilFromDays (t / nsPerDay)).2.
Definition Hour (t : Time) : Z := (t mod nsPerDay) / 3600000000000.
Definition Minute (t : Time) : Z := (t mod 3600000000000) / 60000000000.
Definition Second (t : Time) : Z := (t mod 60000000000) / 1000000000.
Definition Nanosecond (t : Time) : Z := t mod 1000000000.

(** [t.AddDate(years, months, days)]. *)
Definition AddDate (t : Time) (years months days : Z) : Time :=
  Date (Year t + years) (Month t + months) (Day t + days)
       (Hour t) (Minute t) (Second t) (Nanosecond t).

(** [t.Add(d)], the duration in nanoseconds. *)
Definition Add (t : Time) (d : Z) : Time := t + d.

Definition Before (t u : Time) : bool := t <? u.
Definition After (t u : Time) : bool := u <? t.

Definition digit (c : ascii) : option Z :=
  let n := Z.of_nat (nat_of_ascii c) in
  if (48 <=? n) && (n <=? 57) then Some (n - 48) else None.

(** The fields of a month token accepted by the layout "2006-01": four
    digits, a dash, two digits naming a month from 01 to 12. *)
Definition parseMonth (s : string) : option (Z * Z) :=
  match s with
  | String y1 (String y2 (String y3 (String y4 (String dash
      (String m1 (String m2 EmptyString)))))) =>
      match digit y1, digit y2, digit y3, digit y4, digit m1, digit m2 with
      | Some a, Some b, Some c, Some d, Some e, Some f =>
          let month := e * 10 + f in
          if Ascii.eqb dash "-"%char && (1 <=? month) && (month <=? 12)
          then Some (a * 1000 + b * 100 + c * 10 + d, month)
          else None
      | _, _, _, _, _, _ => None
      end
  | _ => None
  end.

(** [time.Parse("2006-01", s)]. *)
Definition Parse (s : string) : option Time :=
  match parseMonth s with
  | Some (y, m) => Some (Date y m 1 0 0 0 0)
  | None => None
  end.

(** The last [w] decimal digits of [x], most significant first. *)
Fixpoint digits (w : nat) (x : Z) : string :=
  match w with
  | O => ""
  | S k => digits k (x / 10)
           +:+ String (ascii_of_nat (Z.to_nat (48 + x mod 10))) ""
  end.

(** [t.Format("2006-01")] for the years 0 to 9999. *)
Definition Format (t : Time) : string :=
  digits 4 (Year t) +:+ "-" +:+ digits 2 (Month t).

End time.

(** ** Package logapi *)

Module logapi.

(** Server holds application state.  [auth] is the verifier's [Verify]. *)
Record Server := mkServer {
  auth : string -> string -> bool;
  storage : fpath;
  compress : string;
  tarFS : gmap string tarfs.TarFS    (* date -> TarFS *)
}.

(** What the handlers read from a request. *)
Record Request := mkRequest {
  BasicAuth : option (string * string);
  X_File_Date : string;
  X_File_Name : string;
  user : string;                (* r.PathValue("user") *)
  date : string;                (* r.PathValue("date") *)
  name : string;                (* r.PathValue("name") *)
  Body : bytes;                 (* the bytes the body delivers ... *)
  BodyErr : bool                (* ... before it fails, if it does *)
}.

(** What a handler writes: a JSON error (status, code, message; the detail
    text is left out), a JSON message, a JSON result list, or a streamed
    body under the default status 200. *)
Inductive Response :=
| JSONError (status : Z) (code errorMsg : string)
| JSONMessage (status : Z)
| JSONResults (status : Z) (results : list string)
| Stream (body : bytes).

(** New initializes the server. *)
Definition New (auth : string -> string -> bool) (storage : fpath)
  (compress : string) : error + Server :=
  if negb (String.eqb compress "zst") && negb (String.eqb compress "gz")
     && negb (String.eqb compress "xz")
  then inl (ErrUnsupportedCompression compress)
  else inr (mkServer auth storage compress ∅).

Definition authorized (s : Server) (r : Request) : option string :=
  match BasicAuth r with
  | Some (username, password) =>
      if auth s username password then Some username else None
  | None => None
  end.

Definition unauthorized : Response :=
  JSONError 401 "unauthorized" "Unauthorized".
Definition forbidden : Response := JSONError 403 "forbidden" "Forbidden".
Definition server_error : Response :=
  JSONError 500 "server_error" "Server error".
Definition file_not_found : Response :=
  JSONError 404 "file_not_found" "File not found".

(** The date check of UploadLog. *)
Definition dateInRange (now dateTime : time.Time) : bool :=
  let firstOfCurrentMonth :=
    time.Date (time.Year now) (time.Month now) 1 0 0 0 0 in
  let firstOfLastMonth := time.AddDate firstOfCurrentMonth 0 (-1) 0 in
  let tomorrow := time.AddDate now 0 0 1 in
  negb (time.Before dateTime firstOfLastMonth || time.After dateTime tomorrow).

(** [io.Copy(tmpFile, r.Body)]: the bytes that reach the file, and whether
    the copy failed. *)
Definition copyBody (flt : faults) (tmpPath : fpath) (r : Request)
  : bytes * bool :=
  if flt OpCopy tmpPath then ([], true) else (Body r, BodyErr r).

Definition UploadLog (flt : faults) (now : time.Time) (s : Server) (fs : FS)
  (r : Request) : Response * FS :=
  match authorized s r with
  | None => (unauthorized, fs)
  | Some username =>
      let date := X_File_Date r in
      let name := X_File_Name r in
      if String.eqb date "" || String.eqb name "" then
        (JSONError 400 "missing_headers" "Missing headers", fs)
      else
        (* Validate date (YYYY-MM) *)
        match time.Parse date with
        | None => (JSONError 400 "invalid_date" "Invalid date format", fs)
        | Some dateTime =>
            if negb (dateInRange now dateTime) then
              (JSONError 400 "date_out_of_range" "Date out of range", fs)
            else
              let dataDir := storage s ++ [username; date] in
              match os.MkdirAll flt fs dataDir with
              | inl _ => (server_error, fs)
              | inr fs1 =>
                  let storagePath := dataDir ++ [name] in
                  let tmpPath := dataDir ++ [name +:+ ".tmp"] in
                  match os.Create flt fs1 tmpPath with
                  | inl _ => (server_error, fs1)
                  | inr fs2 =>
                      let '(written, failed) := copyBody flt tmpPath r in
                      let fs3 := <[tmpPath := NFile written]> fs2 in
                      if failed then
                        (JSONError 500 "write_failed" "Failed to write file", fs3)
                      else
                        match os.Rename flt fs3 tmpPath storagePath with
                        | inl _ => (server_error, fs3)
                        | inr fs4 => (JSONMessage 201, fs4)
                        end
                  end
              end
        end
  end.

(** The archive lookup shared by ListFiles and GetFile: the cached TarFS
    for [date], or a new one built from the requesting user's container
    and stored under [date]. *)
Definition lookupTarFS (flt : faults) (s : Server) (fs : FS)
  (user date : string) : error + (tarfs.TarFS * Server) :=
  match tarFS s !! date with
  | Some tfs => inr (tfs, s)
  | None =>
      let tarPath := storage s ++ [user; date +:+ ".tar." +:+ compress s] in
      match tarfs.NewTarFS flt fs tarPath with
      | inl err => inl err
      | inr tfs =>
          inr (tfs, mkServer (auth s) (storage s) (compress s)
                             (<[date := tfs]> (tarFS s)))
      end
  end.

Definition ListFiles (flt : faults) (s : Server) (fs : FS) (r : Request)
  : Response * Server :=
  match authorized s r with
  | None => (unauthorized, s)
  | Some username =>
      if negb (String.eqb username (user r)) then (forbidden, s)
      else
        let dateDir := storage s ++ [user r; date r] in
        match os.ReadDir flt fs dateDir with
        | inl _ =>
            match lookupTarFS flt s fs (user r) (date r) with
            | inl _ => (file_not_found, s)
            | inr (tfs, s') =>
                (JSONResults 201
                   ((fun p => TrimPrefix p (date r +:+ "/")) <$> tarfs.EntryPaths tfs),
                 s')
            end
        | inr entries => (JSONResults 201 (entries.*1), s)
        end
  end.

Definition GetFile (flt : faults) (s : Server) (fs : FS) (r : Request)
  : Response * Server :=
  match authorized s r with
  | None => (unauthorized, s)
  | Some username =>
      if negb (String.eqb username (user r)) then (forbidden, s)
      else
        (* Validate date format *)
        match time.Parse (date r) with
        | None => (JSONError 400 "invalid_date" "Invalid date format", s)
        | Some _ =>
            (* Check filesystem first *)
            let filePath := storage s ++ [user r; date r; name r] in
            match os.Open flt fs filePath with
            | inr f => (Stream (nodeBytes f), s)
            | inl _ =>
                (* Try streaming from tarball *)
                match lookupTarFS flt s fs (user r) (date r) with
                | inl _ => (file_not_found, s)
                | inr (tfs, s') =>
                    match tarfs.Get flt fs tfs (date r +:+ "/" +:+ name r) with
                    | inl _ => (file_not_found, s')
                    | inr f => (Stream f, s')
                    end
                end
            end
        end
  end.

(** The month a directory entry of ListMonths stands for: a directory by
    its name, a file by its name without its last two extensions. *)
Definition monthName (monthEntry : string * bool) : string :=
  let '(name, isDir) := monthEntry in
  if isDir then name
  else
    (* remove .tar.zstd *)
    let name := TrimSuffix name (Ext name) in
    TrimSuffix name (Ext name).

(** The loop of ListMonths over the directory entries. *)
Fixpoint collectMonths (monthEntries : list (string * bool)) : list string :=
  match monthEntries with
  | [] => []
  | monthEntry :: rest =>
      let name := monthName monthEntry in
      match time.Parse name with
      | None => collectMonths rest          (* continue *)
      | Some _ => name :: collectMonths rest
      end
  end.

Definition ListMonths (flt : faults) (s : Server) (fs : FS) (r : Request)
  : Response :=
  match authorized s r with
  | None => unauthorized
  | Some username =>
      if negb (String.eqb username (user r)) then forbidden
      else
        let userDir := storage s ++ [username] in
        match os.ReadDir flt fs userDir with
        | inl _ => server_error
        | inr monthEntries => JSONResults 201 (collectMonths monthEntries)
        end
  end.

(** How a sweep ends. *)
Inductive sweep :=
| Swept (tarballs : list fpath)
| SweepFailed (err : error)
| SweepPanicked (msg : string).

(** The inner loop of CompressAll over the entries of one user directory. *)
Fixpoint sweepDates (flt : faults) (compress thenName : string)
  (userPath : fpath) (dateDirs : list (string * bool)) (fs : FS)
  (tarballs : list fpath) : sweep * FS :=
  match dateDirs with
  | [] => (Swept tarballs, fs)
  | (dateName, isDir) :: rest =>
      if negb isDir then
        sweepDates flt compress thenName userPath rest fs tarballs
      else if negb (bool_decide (is_Some (time.Parse dateName))) then
        sweepDates flt compress thenName userPath rest fs tarballs
      else if negb (String.ltb dateName thenName) then   (* dateName >= thenName *)
        sweepDates flt compress thenName userPath rest fs tarballs
      else
        match tarfs.CompressAndRemove flt fs userPath dateName compress with
        | (tarfs.Return (Some err), fs') => (SweepFailed err, fs')
        | (tarfs.Panic msg, fs') => (SweepPanicked msg, fs')
        | (tarfs.Return None, fs') =>
            let tarball := userPath ++ [dateName +:+ ".tar." +:+ compress] in
            sweepDates flt compress thenName userPath rest fs'
              (tarballs ++ [tarball])
        end
  end.

(** The outer loop of CompressAll over the entries of the storage root. *)
Fixpoint sweepUsers (flt : faults) (compress thenName : string)
  (storage : fpath) (userDirs : list (string * bool)) (fs : FS)
  (tarballs : list fpath) : sweep * FS :=
  match userDirs with
  | [] => (Swept tarballs, fs)
  | (userName, isDir) :: rest =>
      if negb isDir then
        sweepUsers flt compress thenName storage rest fs tarballs
      else
        let userPath := storage ++ [userName] in
        match os.ReadDir flt fs userPath with
        | inl _ => sweepUsers flt compress thenName storage rest fs tarballs
        | inr dateDirs =>
            match sweepDates flt compress thenName userPath dateDirs fs tarballs with
            | (Swept tarballs', fs') =>
                sweepUsers flt compress thenName storage rest fs' tarballs'
            | r => r
            end
        end
  end.

Definition CompressAll (flt : faults) (s : Server) (fs : FS)
  (now : time.Time) (stale : Z) : sweep * FS :=
  let then_ := time.Add now (- stale) in
  let thenName := time.Format then_ in
  match os.ReadDir flt fs (storage s) with
  | inl err => (SweepFailed err, fs)
  | inr userDirs =>
      sweepUsers flt (compress s) thenName (storage s) userDirs fs []
  end.

End logapi.

Import tarfs logapi.

(** ** Reference definitions for stating the properties *)

(** Text as bytes. *)
Definition b (s : string) : bytes := String.list_byte_of_string s.

(** The formats [newTarReader] decodes. *)
Definition readable (fmt : string) : Prop :=
  fmt = "gz" ∨ fmt = "bz2" ∨ fmt = "zst" ∨ fmt = "xz".

(** [p] holds a container whose name announces the compressor it was
    written with, and whose stream is [es] followed by a clean end. *)
Definition holds (fs : FS) (p : fpath) (es : list tarEntry) : Prop :=
  ∃ fmt, readable fmt ∧ tarfs.detectFormat p = fmt
         ∧ fs !! p = Some (NTar fmt (mkStream es EndEOF)).

(** The last regular-file entry named [n] in [es], with its ordinal when
    the first entry of [es] has ordinal [i]. *)
Fixpoint lastRegular (es : list tarEntry) (i : nat) (n : string)
  : option (nat * tarEntry) :=
  match es with
  | [] => None
  | e :: rest =>
      match lastRegular rest (S i) n with
      | Some r => Some r
      | None =>
          if is_TypeReg (Flag e) && String.eqb (Name e) n
          then Some (i, e) else None
      end
  end.



(** The day on which the calendar month of index [k] = 12 * year + month
    begins. *)
Definition monthStart (k : Z) : Z := time.daysFromCivil 0 k 1.

(** The index of the calendar month an instant lies in. *)
Definition monthOf (t : time.Time) : Z := 12 * time.Year t + time.Month t.

(** [checkRange P k lo]: [P] holds on the [2^k] integers from [lo] on. *)
Fixpoint checkRange (P : Z -> bool) (k : nat) (lo : Z) : bool :=
  match k with
  | O => P lo
  | S k' => checkRange P k' lo && checkRange P k' (lo + 2 ^ Z.of_nat k')
  end.

(** A month begins before the next one does. *)
Definition stepOk (k : Z) : bool := monthStart k <? monthStart (k + 1).

(** The civil date of a day has a month from 1 to 12 and a day from 1 on,
    and the day lies in that month. *)
Definition civilOk (z : Z) : bool :=
  let '(y, m, d) := time.civilFromDays z in
  (1 <=? m) && (m <=? 12) && (1 <=? d)
  && (monthStart (12 * y + m) + d - 1 =? z)
  && (z <? monthStart (12 * y + m + 1)).

(** The tar entry the walk of CompressDir writes for a node: none for a
    directory, a regular-file entry named by the relative path otherwise. *)
Definition entryOf (dataDir : fpath) (kv : fpath * node) : option tarEntry :=
  match kv.2 with
  | NDir => None
  | n => Some (mkEntry (Rel dataDir kv.1) TypeReg (nodeBytes n))
  end.

(** The formats the server constructor accepts. *)
Definition writable (fmt : string) : Prop :=
  fmt = "zst" ∨ fmt = "gz" ∨ fmt = "xz".

Definition isDirNode (n : node) : bool :=
  match n with NDir => true | _ => false end.

(** [rotated fs storage fmt thenName tb]: [tb] is the container of a month
    of some owner that sorts before [thenName]; the container exists and
    the month's live directory is gone. *)
Definition rotated (fs : FS) (storage : fpath) (fmt thenName : string)
  (tb : fpath) : Prop :=
  ∃ u d, tb = storage ++ [u; d +:+ ".tar." +:+ fmt]
         ∧ is_Some (time.parseMonth d)
         ∧ String.ltb d thenName = true
         ∧ is_Some (fs !! tb)
         ∧ ∀ q, (storage ++ [u; d]) `prefix_of` q → fs !! q = None.

(** ** Fixtures: the concrete states the properties are exercised on *)




(** A container in which a name occurs three times as a regular file, with
    a directory entry in between. *)
Definition mixed_entries : list tarEntry :=
  [ mkEntry "2025-01/a.log" TypeReg (b "first");
    mkEntry "2025-01" TypeDir [];
    mkEntry "2025-01/a.log" TypeReg (b "second");
    mkEntry "2025-01/b.log" TypeReg (b "other");
    mkEntry "2025-01/a.log" TypeReg (b "third");
    mkEntry "2025-01/link" TypeSymlink [] ].

Definition mixed_path : fpath := ["data"; "alice"; "2025-01.tar.zst"].

Definition mixed_fs : FS :=
  {[ mixed_path := NTar "zst" (mkStream mixed_entries EndEOF) ]}.

(** The index NewTarFS builds for the mixed container. *)
Definition mixed_index : TarFS :=
  match NewTarFS no_faults mixed_fs mixed_path with
  | inr t => t
  | inl _ => mkTarFS [] ∅ ∅ ""
  end.

(** A verifier that knows two users. *)
Definition two_users (username password : string) : bool :=
  (String.eqb username "alice" && String.eqb password "pa")
  || (String.eqb username "bob" && String.eqb password "pb").

Definition srv : Server := mkServer two_users ["data"] "zst" ∅.

Definition get_request (who pass owner month file : string) : Request :=
  mkRequest (Some (who, pass)) "" "" owner month file [] false.

(** Inconsistent state: a live file and an archive member for one key. *)
Definition both_fs : FS :=
  {[ ["data"] := NDir;
     ["data"; "alice"] := NDir;
     ["data"; "alice"; "2025-01"] := NDir;
     ["data"; "alice"; "2025-01"; "a.log"] := NFile (b "live");
     ["data"; "alice"; "2025-01.tar.zst"] :=
       NTar "zst" (mkStream [mkEntry "2025-01/a.log" TypeReg (b "archived")]
                            EndEOF) ]}.

(** Two owners, each with a container for the same month. *)
Definition two_fs : FS :=
  {[ ["data"] := NDir;
     ["data"; "alice"] := NDir;
     ["data"; "bob"] := NDir;
     ["data"; "alice"; "2025-01.tar.zst"] :=
       NTar "zst" (mkStream [mkEntry "2025-01/a.log" TypeReg (b "alice's line");
                             mkEntry "2025-01/secret.log" TypeReg (b "alice's secret")]
                            EndEOF);
     ["data"; "bob"; "2025-01.tar.zst"] :=
       NTar "zst" (mkStream [mkEntry "2025-01/a.log" TypeReg (b "bob's line")]
                            EndEOF) ]}.

Definition alice_get : Request := get_request "alice" "pa" "alice" "2025-01" "a.log".
Definition bob_get : Request := get_request "bob" "pb" "bob" "2025-01" "a.log".
Definition bob_get_secret : Request :=
  get_request "bob" "pb" "bob" "2025-01" "secret.log".
Definition bob_list : Request := get_request "bob" "pb" "bob" "2025-01" "".

(** The server after it has answered alice's request. *)
Definition srv_after_alice : Server := (GetFile no_faults srv two_fs alice_get).2.

(** One owner with one live month of two files. *)
Definition rot_fs : FS :=
  {[ ["data"] := NDir;
     ["data"; "alice"] := NDir;
     ["data"; "alice"; "2024-01"] := NDir;
     ["data"; "alice"; "2024-01"; "a.log"] := NFile (b "A");
     ["data"; "alice"; "2024-01"; "b.log"] := NFile (b "B") ]}.

Definition rot_tar : fpath := ["data"; "alice"; "2024-01.tar.zst"].



(** The bytes of the month directory reach the container, but closing the
    tar writer (or the compressor, or the file) fails. *)
Definition close_fails (o : op) : faults := fail_at o rot_tar.

Definition unfinalized : node :=
  NTar "zst" (mkStream [mkEntry "2024-01/a.log" TypeReg (b "A");
                        mkEntry "2024-01/b.log" TypeReg (b "B")] EndErr).

(** Two owners; alice has two stale months, bob one. *)
Definition sweep_fs : FS :=
  {[ ["data"] := NDir;
     ["data"; "alice"] := NDir;
     ["data"; "alice"; "2024-01"] := NDir;
     ["data"; "alice"; "2024-01"; "a.log"] := NFile (b "A");
     ["data"; "alice"; "2024-02"] := NDir;
     ["data"; "alice"; "2024-02"; "c.log"] := NFile (b "C");
     ["data"; "bob"] := NDir;
     ["data"; "bob"; "2024-01"] := NDir;
     ["data"; "bob"; "2024-01"; "b.log"] := NFile (b "B") ]}.

(** alice's first month holds a file that cannot be opened. *)
Definition unreadable : faults :=
  fail_at OpOpen ["data"; "alice"; "2024-01"; "a.log"].

(** The sweep of 2025-06-15 03:00 UTC with the 93-day window. *)
Definition sweep_now : time.Time := time.Date 2025 6 15 3 0 0 0.
Definition staleAfter : Z := 93 * 24 * 3600 * 1000000000.

Definition upload_fs : FS := {[ ["data"] := NDir ]}.

Definition upload_now : time.Time := time.Date 2025 6 15 12 0 0 0.

(** alice uploads a.log for 2025-06; the body breaks off after the bytes
    "partial". *)
Definition broken_upload : Request :=
  mkRequest (Some ("alice", "pa")) "2025-06" "a.log" "" "" "" (b "partial") true.


(** alice uploads a.log for 2025-06 and the body arrives whole. *)
Definition good_upload : Request :=
  mkRequest (Some ("alice", "pa")) "2025-06" "a.log" "" "" "" (b "payload") false.

(** The filesystem after that upload into the empty storage. *)
Definition uploaded_fs : FS :=
  (UploadLog no_faults upload_now srv upload_fs good_upload).2.

Definition alice_new_get : Request :=
  get_request "alice" "pa" "alice" "2025-06" "a.log".

(** alice uploads for a month long past. *)
Definition late_upload : Request :=
  mkRequest (Some ("alice", "pa")) "2020-01" "a.log" "" "" "" (b "payload") false.

(** alice's directory with a live month, a container and a stray file. *)
Definition months_fs : FS :=
  {[ ["data"] := NDir;
     ["data"; "alice"] := NDir;
     ["data"; "alice"; "2025-06"] := NDir;
     ["data"; "alice"; "2025-01.tar.zst"] := NTar "zst" (mkStream [] EndEOF);
     ["data"; "alice"; "notes.txt"] := NFile (b "n") ]}.

Definition listed_months : list string :=
  match ListMonths no_faults srv months_fs
          (get_request "alice" "pa" "alice" "" "") with
  | JSONResults _ months => months
  | _ => []
  end.

(** The sweep fixture with a recent month beside the stale ones. *)
Definition recent_fs : FS :=
  <[ ["data"; "alice"; "2025-05"] := NDir ]>
    (<[ ["data"; "alice"; "2025-05"; "x.log"] := NFile (b "X") ]> sweep_fs).

(** The result of the fault-free sweep of [sweep_fs]. *)
Definition swept_fs : FS :=
  (CompressAll no_faults srv sweep_fs sweep_now staleAfter).2.

Definition swept_tarballs : list fpath :=
  [ ["data"; "alice"; "2024-01.tar.zst"];
    ["data"; "alice"; "2024-02.tar.zst"];
    ["data"; "bob"; "2024-01.tar.zst"] ].


(** * Properties *)

(** ** The indexer and the fetch (tarfs.go) *)

Section Indexer.

Lemma scan_Next es fin i t :
  scan es fin i t =
  match Next (mkStream es fin) with
  | inl EOF => inr t
  | inl err => inl err
  | inr (e, r) =>
      if is_TypeReg (Flag e) then
        scan (entries r) (ending r) (S i)
          (mkTarFS (path t) (<[Name e := i]> (indices t))
             (<[Name e := Size e]> (sizes t)) (format t))
      else scan (entries r) (ending r) (S i) t
  end.
Proof. destruct es as [|e rest]; [destruct fin|]; reflexivity. Qed.

Lemma scan_result es fin i t t' :
  scan es fin i t = inr t' →
  fin = EndEOF ∧ path t' = path t ∧ format t' = format t ∧
  ∀ n, indices t' !! n =
         match lastRegular es i n with
         | Some (j, _) => Some j
         | None => indices t !! n
         end
       ∧ sizes t' !! n =
         match lastRegular es i n with
         | Some (_, e) => Some (Size e)
         | None => sizes t !! n
         end.
Proof.
  revert i t. induction es as [|e rest IH]; intros i t H; simpl in H.
  - destruct fin; [|discriminate]. injection H as <-. done.
  - destruct (is_TypeReg (Flag e)) eqn:Hreg;
      apply IH in H as (-> & Hp & Hf & Hix); simpl in Hp, Hf;
      (split; [done|]); (split; [done|]); (split; [done|]);
      intros n; destruct (Hix n) as [H1 H2]; rewrite H1, H2; simpl;
      rewrite Hreg; simpl;
      destruct (lastRegular rest (S i) n) as [[j e']|]; try done.
    destruct (String.eqb_spec (Name e) n) as [->|Hne].
    + by rewrite !lookup_insert_eq.
    + by rewrite !lookup_insert_ne.
Qed.

Lemma scan_total es i t : ∃ t', scan es EndEOF i t = inr t'.
Proof.
  revert i t. induction es as [|e rest IH]; intros i t; simpl; [eauto|].
  destruct (is_TypeReg (Flag e)); apply IH.
Qed.

(** [lastRegular] finds a regular entry of that name, at that ordinal, and
    no regular entry of that name comes after it. *)
Lemma lastRegular_Some es i n j e :
  lastRegular es i n = Some (j, e) →
  (i ≤ j)%nat ∧ es !! (j - i)%nat = Some e ∧ Name e = n ∧ Flag e = TypeReg
  ∧ ∀ k e', (j - i < k)%nat → es !! k = Some e' → Name e' = n → Flag e' ≠ TypeReg.
Proof.
  revert i. induction es as [|e0 rest IH]; intros i H; simpl in H; [done|].
  destruct (lastRegular rest (S i) n) as [[j' e']|] eqn:Hl.
  - injection H as -> ->. apply IH in Hl as (Hle & Hlk & Hn & Hf & Hlast).
    repeat split; try done; try lia.
    + replace (j - i)%nat with (S (j - S i)) by lia. done.
    + intros k e'' Hk Hlk'. destruct k as [|k]; [lia|]. simpl in Hlk'.
      apply (Hlast k); [lia|done].
  - destruct (is_TypeReg (Flag e0)) eqn:Hreg; [|done].
    destruct (String.eqb_spec (Name e0) n) as [Hn|]; [|done].
    simpl in H. injection H as <- <-.
    repeat split; try done; try lia.
    + by rewrite Nat.sub_diag.
    + by destruct (Flag e0).
    + intros k e'' Hk Hlk' Hn' Hf'. rewrite Nat.sub_diag in Hk.
      destruct k as [|k]; [lia|]. simpl in Hlk'.
      clear IH. revert i k Hl Hlk' Hk. induction rest as [|e1 rest IH]; intros i k Hl Hlk' Hk; [done|].
      simpl in Hl. destruct (lastRegular rest (S (S i)) n) eqn:Hl'; [done|].
      destruct k as [|k]; simpl in Hlk'.
      * injection Hlk' as ->. rewrite Hf', Hn' in Hl. simpl in Hl.
        by rewrite String.eqb_refl in Hl.
      * apply (IH (S i) k); [done|done|lia].
Qed.


Lemma lastRegular_None es i n :
  lastRegular es i n = None →
  ∀ k e, es !! k = Some e → Name e = n → Flag e ≠ TypeReg.
Proof.
  revert i. induction es as [|e0 rest IH]; intros i H k e Hlk Hn Hf; [done|].
  simpl in H. destruct (lastRegular rest (S i) n) eqn:Hl; [done|].
  destruct k as [|k]; simpl in Hlk.
  - injection Hlk as ->. rewrite Hf, Hn in H. simpl in H.
    by rewrite String.eqb_refl in H.
  - by apply (IH (S i) Hl k e).
Qed.

Lemma advance_lookup es fin k e h :
  es !! k = Some e → advance (S k) (mkStream es fin) h = inr (Some e).
Proof.
  revert es h. induction k as [|k IH]; intros [|e0 rest] h Hlk; try done.
  - simpl in Hlk. injection Hlk as ->. reflexivity.
  - simpl in Hlk. change (advance (S (S k)) (mkStream (e0 :: rest) fin) h)
      with (advance (S k) (mkStream rest fin) (Some e0)). by apply IH.
Qed.

Lemma advance_short es fin k h :
  (length es ≤ k)%nat → ∃ err, advance (S k) (mkStream es fin) h = inl err.
Proof.
  revert es h. induction k as [|k IH]; intros [|e0 rest] h Hlen; simpl in Hlen.
  - destruct fin; simpl; eauto.
  - lia.
  - destruct fin; simpl; eauto.
  - change (advance (S (S k)) (mkStream (e0 :: rest) fin) h)
      with (advance (S k) (mkStream rest fin) (Some e0)). apply IH. lia.
Qed.

Lemma newTarReader_readable f fmt :
  readable fmt → newTarReader f fmt = inr (decodeAs fmt f).
Proof. by intros [->|[->|[->| ->]]]. Qed.

Lemma readable_nonempty fmt : readable fmt → String.eqb fmt "" = false.
Proof. by intros [->|[->|[->| ->]]]. Qed.

(** NewTarFS on a container: it returns the index that [scan] builds over
    the container's entries. *)
Lemma NewTarFS_holds flt fs p es :
  holds fs p es → flt OpOpen p = false →
  ∃ t, NewTarFS flt fs p = inr t ∧ scan es EndEOF 0 (mkTarFS p ∅ ∅ (detectFormat p)) = inr t.
Proof.
  intros (fmt & Hr & Hfmt & Hlk) Hflt.
  destruct (scan_total es 0 (mkTarFS p ∅ ∅ (detectFormat p))) as [t Ht].
  exists t. split; [|done]. unfold NewTarFS, os.Open.
  rewrite Hfmt, (readable_nonempty _ Hr), Hflt, Hlk, (newTarReader_readable _ _ Hr).
  simpl. rewrite String.eqb_refl. simpl. by rewrite <- Hfmt.
Qed.

(** Get against a container: it stands at the entry with the recorded
    ordinal and compares its name. *)
Lemma Get_at flt fs t n k es e :
  holds fs (path t) es → format t = detectFormat (path t) →
  flt OpOpen (path t) = false →
  indices t !! n = Some k → es !! k = Some e →
  Get flt fs t n =
    if String.eqb (Name e) n then inr (data e) else inl (ErrExpected n (Name e)).
Proof.
  intros (fmt & Hr & Hfmt & Hlk) Hf Hflt Hix He.
  unfold Get, os.Open. rewrite Hix, Hflt, Hlk, Hf, Hfmt, (newTarReader_readable _ _ Hr).
  simpl decodeAs. rewrite String.eqb_refl.
  by rewrite (advance_lookup _ _ _ _ _ He).
Qed.


(** An indexed name stands for a regular entry at the recorded ordinal,
    and the fetch returns its payload. *)
Lemma NewTarFS_indexed_entry flt fs p es t n k :
  holds fs p es → flt OpOpen p = false →
  NewTarFS flt fs p = inr t →
  indices t !! n = Some k →
  ∃ e, es !! k = Some e ∧ Flag e = TypeReg ∧ Name e = n
       ∧ sizes t !! n = Some (Size e)
       ∧ Get flt fs t n = inr (data e).
Proof.
  intros Hh Hflt Ht Hk.
  destruct (NewTarFS_holds flt fs p es Hh Hflt) as (t' & Ht' & Hscan).
  rewrite Ht in Ht'. injection Ht' as <-.
  apply scan_result in Hscan as (_ & Hp & Hfmt & Hix). simpl in Hp, Hfmt.
  destruct (Hix n) as [Hi Hs]. rewrite Hk in Hi.
  destruct (lastRegular es 0 n) as [[j e]|] eqn:Hl; [|done].
  injection Hi as ->.
  apply lastRegular_Some in Hl as (_ & Hlk & Hn & Hf & _).
  rewrite Nat.sub_0_r in Hlk.
  exists e. repeat split; try done.
  rewrite (Get_at flt fs t n j es e); rewrite ?Hp, ?Hfmt; try done.
  by rewrite Hn, String.eqb_refl.
Qed.



Lemma mixed_holds : holds mixed_fs mixed_path mixed_entries.
Proof. exists "zst". split; [right; right; by left|]. split; reflexivity. Defined.




End Indexer.

(** ** The overlay: live storage first, then the archive (GetFile) *)

Section Overlay.

Lemma Get_not_indexed flt fs t n :
  indices t !! n = None → Get flt fs t n = inl (ErrFileNotFound n).
Proof. intros H. unfold Get. by rewrite H. Qed.



(** C1 fails on the code: the cache is keyed by the month alone.  Once
    alice's archive for 2025-01 is cached, bob's requests for 2025-01 are
    answered from alice's container: he receives her bytes for a name he
    also has, her bytes for a name he does not have, and her file list.
    On a fresh server bob is served from his own container. *)
Theorem cache_shared_between_owners :
  New two_users ["data"] "zst" = inr srv
  ∧ (GetFile no_faults srv two_fs alice_get).1 = Stream (b "alice's line")
  ∧ (GetFile no_faults srv two_fs bob_get).1 = Stream (b "bob's line")
  ∧ path <$> tarFS srv_after_alice !! "2025-01"
    = Some ["data"; "alice"; "2025-01.tar.zst"]
  ∧ (GetFile no_faults srv_after_alice two_fs bob_get).1
    = Stream (b "alice's line")
  ∧ (GetFile no_faults srv_after_alice two_fs bob_get_secret).1
    = Stream (b "alice's secret")
  ∧ (∃ names, (ListFiles no_faults srv_after_alice two_fs bob_list).1
              = JSONResults 201 names
              ∧ "secret.log" ∈ names).
Proof.
  repeat split; try (vm_compute; reflexivity).
  eexists. split; [vm_compute; reflexivity|].
  apply list_elem_of_In. vm_compute. tauto.
Qed.

End Overlay.

(** ** Rotation (compressor.go) *)

Section Rotation.

Lemma append_self_inv (s t : string) : s = s +:+ t → t = "".
Proof.
  induction s as [|c s IH]; simpl; intros H; [done|].
  injection H as H. by apply IH.
Qed.

(** The container of a month does not lie in the month's directory. *)
Lemma tarPath_outside_root (dataDir : fpath) (date fmt : string) :
  ¬ (dataDir ++ [date]) `prefix_of` (dataDir ++ [date +:+ ".tar." +:+ fmt]).
Proof.
  intros H. apply prefix_app_inv in H. apply prefix_cons_inv_1 in H.
  apply append_self_inv in H. discriminate.
Qed.

Lemma RemoveAll_outside flt fs p q :
  ¬ p `prefix_of` q → (os.RemoveAll flt fs p).2 !! q = fs !! q.
Proof.
  intros Hq. unfold os.RemoveAll. destruct (flt OpRemoveAll p); [done|].
  simpl. rewrite map_lookup_filter. destruct (fs !! q); [|done].
  simpl. by rewrite option_guard_True.
Qed.

Lemma RemoveAll_inside flt fs p q :
  flt OpRemoveAll p = false → p `prefix_of` q →
  (os.RemoveAll flt fs p).2 !! q = None.
Proof.
  intros Hf Hq. unfold os.RemoveAll. rewrite Hf. simpl.
  apply map_lookup_filter_None. right. intros x _ Hn. by apply Hn.
Qed.


Lemma RemoveAll_err flt fs p :
  (os.RemoveAll flt fs p).1 = if flt OpRemoveAll p then Some ErrIO else None.
Proof. unfold os.RemoveAll. by destruct (flt OpRemoveAll p). Qed.

(** With the container in place CompressDir returns at once. *)
Lemma CompressDir_exists flt fs dataDir date fmt n :
  fs !! (dataDir ++ [date +:+ ".tar." +:+ fmt]) = Some n →
  CompressDir flt fs dataDir date fmt = (Return None, fs).
Proof.
  intros H. unfold CompressDir, os.Stat. rewrite H.
  by destruct (flt OpStat _).
Qed.

Lemma CompressAndRemove_unfold flt fs dataDir date fmt :
  CompressAndRemove flt fs dataDir date fmt =
  match CompressDir flt fs dataDir date fmt with
  | (Return None, fs1) =>
      (Return (os.RemoveAll flt fs1 (dataDir ++ [date])).1,
       (os.RemoveAll flt fs1 (dataDir ++ [date])).2)
  | r => r
  end.
Proof.
  unfold CompressAndRemove.
  destruct (CompressDir flt fs dataDir date fmt) as [[[e|]|m] fs1]; try done.
  by destruct (os.RemoveAll flt fs1 (dataDir ++ [date])).
Qed.

(** A tar writer that is not nil never makes the walk panic. *)
Lemma walkFiles_no_panic flt dataDir todo written :
  walkFiles flt true dataDir todo written ≠ WalkPanic.
Proof.
  revert written. induction todo as [|[p n] rest IH]; intros written; simpl; [done|].
  destruct (flt OpLstat p); [done|].
  destruct n; [destruct (flt OpReadDir p); [done|apply IH] |..];
    (destruct (flt OpWriteHeader p); [done|]);
    (destruct (flt OpOpen p); [done|]);
    (destruct (flt OpCopy p); [done|]); apply IH.
Qed.

Lemma Walk_no_panic flt fs dataDir root :
  Walk flt fs true dataDir root ≠ WalkPanic.
Proof.
  unfold Walk. destruct (fs !! root); [apply walkFiles_no_panic|done].
Qed.

(** When CompressDir returns nil and the existence check could be made,
    the container is there afterwards. *)
Lemma CompressDir_ok_container flt fs fs1 dataDir date fmt :
  flt OpStat (dataDir ++ [date +:+ ".tar." +:+ fmt]) = false →
  CompressDir flt fs dataDir date fmt = (Return None, fs1) →
  is_Some (fs1 !! (dataDir ++ [date +:+ ".tar." +:+ fmt])).
Proof.
  intros Hstat. unfold CompressDir, os.Stat. rewrite Hstat.
  set (tarPath := dataDir ++ [date +:+ ".tar." +:+ fmt]).
  destruct (fs !! tarPath) as [n|] eqn:Hlk; simpl.
  - intros [= <-]. by rewrite Hlk.
  - destruct (os.Create flt fs tarPath) as [e|fs0]; [done|].
    destruct (chooseWriter flt tarPath fmt) as [tw|e|]; try done.
    destruct (Walk flt fs0 tw dataDir (dataDir ++ [date])) as [w|e w c|];
      destruct tw; simpl; try done.
    intros [= <-]. rewrite lookup_insert_eq. done.
Qed.



(** CompressDir touches no path but the container's. *)
Lemma CompressDir_outside flt fs dataDir date fmt q :
  q ≠ dataDir ++ [date +:+ ".tar." +:+ fmt] →
  (CompressDir flt fs dataDir date fmt).2 !! q = fs !! q.
Proof.
  intros Hq. unfold CompressDir.
  set (tarPath := dataDir ++ [date +:+ ".tar." +:+ fmt]) in *.
  destruct (negb (os.IsNotExist (os.Stat flt fs tarPath))); [done|].
  destruct (os.Create flt fs tarPath) as [e|fs1] eqn:Hc; [done|].
  assert (H1 : fs1 !! q = fs !! q).
  { unfold os.Create in Hc. destruct (flt OpCreate tarPath); [done|].
    destruct (fs !! parent tarPath) as [[]|]; try done;
      destruct (fs !! tarPath) as [[]|]; try done;
      injection Hc as <-; by rewrite lookup_insert_ne. }
  destruct (chooseWriter flt tarPath fmt) as [tw|e|]; try done.
  destruct (Walk flt fs1 tw dataDir (dataDir ++ [date])) as [w|e w c|];
    destruct tw; simpl; try done; by rewrite lookup_insert_ne.
Qed.



(** C10: reached with the container absent and the file created,
    CompressDir panics for the format bz2 and panics on the nil tar writer
    for every format outside gz, bz2, zst, xz; the server constructor
    accepts exactly zst, gz and xz, and for the format of a constructed
    server CompressDir never panics: it returns nil or an error value. *)
Theorem CompressDir_panics_only_for_rejected_formats :
  (∀ flt fs fs1 dataDir date,
     let tarPath := dataDir ++ [date +:+ ".tar." +:+ "bz2"] in
     flt OpStat tarPath = false → fs !! tarPath = None →
     os.Create flt fs tarPath = inr fs1 →
     CompressDir flt fs dataDir date "bz2" = (Panic "bzip2 has no writer", fs1))
  ∧ (∀ flt fs fs1 dataDir date fmt,
       let tarPath := dataDir ++ [date +:+ ".tar." +:+ fmt] in
       fmt ≠ "gz" → fmt ≠ "bz2" → fmt ≠ "zst" → fmt ≠ "xz" →
       flt OpStat tarPath = false → fs !! tarPath = None →
       os.Create flt fs tarPath = inr fs1 →
       CompressDir flt fs dataDir date fmt
       = (Panic "nil pointer dereference", fs1))
  ∧ (∀ auth storage fmt s,
       New auth storage fmt = inr s →
       compress s = fmt
       ∧ (fmt = "zst" ∨ fmt = "gz" ∨ fmt = "xz")
       ∧ ∀ flt fs dataDir date,
           ∃ err, (CompressDir flt fs dataDir date (compress s)).1 = Return err).
Proof.
  split; [|split].
  - intros flt fs fs1 dataDir date tarPath Hstat Hlk Hcreate.
    unfold CompressDir, os.Stat. fold tarPath.
    by rewrite Hstat, Hlk, Hcreate.
  - intros flt fs fs1 dataDir date fmt tarPath Hgz Hbz Hzst Hxz Hstat Hlk Hcreate.
    unfold CompressDir, os.Stat, chooseWriter. fold tarPath.
    rewrite Hstat, Hlk, Hcreate. simpl.
    apply String.eqb_neq in Hgz, Hbz, Hzst, Hxz.
    rewrite Hgz, Hbz, Hzst, Hxz.
    by destruct (Walk flt fs1 false dataDir (dataDir ++ [date])).
  - intros auth storage fmt s. unfold New.
    destruct (String.eqb_spec fmt "zst") as [->|Hzst];
      [|destruct (String.eqb_spec fmt "gz") as [->|Hgz];
        [|destruct (String.eqb_spec fmt "xz") as [->|Hxz]]];
      simpl; intros [= <-]; simpl; (split; [done|]);
      (split; [auto|]); intros flt fs dataDir date;
      unfold CompressDir, chooseWriter; simpl;
      match goal with
      | |- context [negb (os.IsNotExist ?x)] =>
          destruct (negb (os.IsNotExist x)); [by eexists|]
      end;
      match goal with
      | |- context [os.Create ?f ?fs ?p] =>
          destruct (os.Create f fs p) as [e|fs1]; [by eexists|]
      end;
      match goal with
      | |- context [flt OpNewWriter ?p] =>
          destruct (flt OpNewWriter p); [by eexists|]
      end;
      match goal with
      | |- context [Walk ?f ?fs ?tw ?d ?r] =>
          pose proof (Walk_no_panic f fs d r);
          destruct (Walk f fs tw d r); [by eexists|by eexists|done]
      end.
Qed.

Lemma CompressDir_panics_only_for_rejected_formats_witness :
  CompressDir no_faults rot_fs ["data"; "alice"] "2024-01" "bz2"
  = (Panic "bzip2 has no writer",
     <[ ["data"; "alice"; "2024-01.tar.bz2"] := NFile [] ]> rot_fs)
  ∧ CompressDir no_faults rot_fs ["data"; "alice"] "2024-01" "lz4"
    = (Panic "nil pointer dereference",
       <[ ["data"; "alice"; "2024-01.tar.lz4"] := NFile [] ]> rot_fs)
  ∧ ∃ err, (CompressDir no_faults rot_fs ["data"; "alice"] "2024-01"
              (compress srv)).1 = Return err.
Proof.
  split; [|split].
  - apply (proj1 CompressDir_panics_only_for_rejected_formats
             no_faults rot_fs _ ["data"; "alice"] "2024-01").
    + reflexivity.
    + reflexivity.
    + reflexivity.
  - apply (proj1 (proj2 CompressDir_panics_only_for_rejected_formats)
             no_faults rot_fs _ ["data"; "alice"] "2024-01" "lz4").
    + discriminate.
    + discriminate.
    + discriminate.
    + discriminate.
    + reflexivity.
    + reflexivity.
    + reflexivity.
  - apply (proj2 (proj2 CompressDir_panics_only_for_rejected_formats)
             two_users ["data"] "zst" srv).
    reflexivity.
Defined.

(** C3 fails on the code: the deferred closes drop their errors.  When
    closing the tar writer, the compressor or the file fails, CompressDir
    still returns nil, so CompressAndRemove removes the live directory
    while the container was never finalized. *)
Theorem close_failure_removes_source :
  ∀ o, o = OpCloseTar ∨ o = OpCloseCompressor ∨ o = OpCloseFile →
    let r := CompressAndRemove (close_fails o) rot_fs ["data"; "alice"]
               "2024-01" "zst" in
    r.1 = Return None
    ∧ r.2 !! ["data"; "alice"; "2024-01"] = None
    ∧ r.2 !! ["data"; "alice"; "2024-01"; "a.log"] = None
    ∧ r.2 !! ["data"; "alice"; "2024-01"; "b.log"] = None
    ∧ r.2 !! rot_tar = Some unfinalized.
Proof.
  intros o [-> | [-> | ->]]; vm_compute; repeat split.
Qed.

Lemma close_failure_removes_source_witness :
  (CompressAndRemove (close_fails OpCloseTar) rot_fs ["data"; "alice"]
     "2024-01" "zst").1 = Return None
  ∧ (CompressAndRemove (close_fails OpCloseTar) rot_fs ["data"; "alice"]
       "2024-01" "zst").2 !! ["data"; "alice"; "2024-01"; "a.log"] = None.
Proof.
  destruct (close_failure_removes_source OpCloseTar) as (H1 & _ & H2 & _).
  - left. reflexivity.
  - split; [exact H1 | exact H2].
Defined.

(** C2 fails on the code: CompressAll returns at the first rotation that
    fails.  With alice's first month failing, neither her second month nor
    bob's month is attempted: both stay live directories and no container
    is made for them.  Without the fault all three months are rotated. *)
Theorem sweep_stops_at_first_failure :
  let r := CompressAll unreadable srv sweep_fs sweep_now staleAfter in
  r.1 = SweepFailed ErrIO
  ∧ r.2 !! ["data"; "alice"; "2024-02"] = Some NDir
  ∧ r.2 !! ["data"; "alice"; "2024-02.tar.zst"] = None
  ∧ r.2 !! ["data"; "bob"; "2024-01"] = Some NDir
  ∧ r.2 !! ["data"; "bob"; "2024-01.tar.zst"] = None
  ∧ (CompressAll no_faults srv sweep_fs sweep_now staleAfter).1
    = Swept [ ["data"; "alice"; "2024-01.tar.zst"];
              ["data"; "alice"; "2024-02.tar.zst"];
              ["data"; "bob"; "2024-01.tar.zst"] ].
Proof. vm_compute. repeat split. Qed.

End Rotation.

(** ** Upload (UploadLog) *)

Section Upload.

(** An accepted upload leaves the payload at storageRoot/owner/month/name
    and no temporary file beside it. *)
Lemma upload_stores_payload flt now s fs fs' r :
  UploadLog flt now s fs r = (JSONMessage 201, fs') →
  ∃ username,
    authorized s r = Some username
    ∧ fs' !! (storage s ++ [username; X_File_Date r; X_File_Name r])
      = Some (NFile (Body r))
    ∧ fs' !! (storage s ++ [username; X_File_Date r; X_File_Name r +:+ ".tmp"])
      = None
    ∧ fs' !! (storage s ++ [username; X_File_Date r]) = Some NDir.
Proof.
  unfold UploadLog. destruct (authorized s r) as [username|]; [|done].
  destruct (String.eqb (X_File_Date r) "" || String.eqb (X_File_Name r) "");
    [done|].
  destruct (time.Parse (X_File_Date r)) as [dt|]; [|done].
  destruct (negb (dateInRange now dt)); [done|].
  set (dataDir := storage s ++ [username; X_File_Date r]).
  destruct (os.MkdirAll flt fs dataDir) as [e|fs1] eqn:Hmk; [done|].
  set (tmpPath := dataDir ++ [X_File_Name r +:+ ".tmp"]).
  set (storagePath := dataDir ++ [X_File_Name r]).
  destruct (os.Create flt fs1 tmpPath) as [e|fs2] eqn:Hcr; [done|].
  unfold copyBody. destruct (flt OpCopy tmpPath); [done|].
  destruct (BodyErr r); [done|].
  destruct (os.Rename flt (<[tmpPath:=NFile (Body r)]> fs2) tmpPath storagePath)
    as [e|fs4] eqn:Hrn; [done|].
  intros [= <-]. exists username. split; [done|].
  assert (Hne : tmpPath ≠ storagePath).
  { unfold tmpPath, storagePath. intros H. apply app_inv_head in H.
    injection H as H. symmetry in H. apply append_self_inv in H. done. }
  assert (Hd1 : tmpPath ≠ dataDir).
  { intros H; apply (f_equal length) in H;
      unfold tmpPath in H; rewrite length_app in H; simpl in H; lia. }
  assert (Hd2 : storagePath ≠ dataDir).
  { intros H; apply (f_equal length) in H;
      unfold storagePath in H; rewrite length_app in H; simpl in H; lia. }
  assert (Hdata : fs2 !! dataDir = Some NDir).
  { unfold os.Create in Hcr. destruct (flt OpCreate tmpPath); [done|].
    assert (Hp : parent tmpPath = dataDir).
    { unfold parent, tmpPath. by rewrite removelast_last. }
    rewrite Hp in Hcr.
    destruct (fs1 !! dataDir) as [[]|] eqn:Hd; try done;
      destruct (fs1 !! tmpPath) as [[]|]; try done;
      injection Hcr as <-; by rewrite lookup_insert_ne. }
  replace (storage s ++ [username; X_File_Date r; X_File_Name r])
    with storagePath by (unfold storagePath, dataDir; by rewrite <- app_assoc).
  replace (storage s ++ [username; X_File_Date r; X_File_Name r +:+ ".tmp"])
    with tmpPath by (unfold tmpPath, dataDir; by rewrite <- app_assoc).
  assert (Hfs4 : fs4 = <[storagePath := NFile (Body r)]>
                         (delete tmpPath (<[tmpPath := NFile (Body r)]> fs2))).
  { unfold os.Rename in Hrn. destruct (flt OpRename storagePath); [done|].
    rewrite lookup_insert_eq in Hrn.
    destruct (<[tmpPath:=NFile (Body r)]> fs2 !! storagePath) as [[]|];
      try done; by injection Hrn as <-. }
  rewrite Hfs4.
  rewrite lookup_insert_eq, lookup_insert_ne, lookup_delete_eq by done.
  repeat split.
  by rewrite lookup_insert_ne, lookup_delete_ne, lookup_insert_ne.
Qed.

(** C4 fails on the code: when the copy fails, UploadLog returns without
    removing the temporary file, which lies in the month directory.  The
    partial bytes are then listed by ListFiles and served by GetFile under
    the name a.log.tmp.  (Nothing appears under the name a.log itself.) *)
Theorem failed_upload_leaves_partial_file :
  let r := UploadLog no_faults upload_now srv upload_fs broken_upload in
  r.1 = JSONError 500 "write_failed" "Failed to write file"
  ∧ r.2 !! ["data"; "alice"; "2025-06"; "a.log"] = None
  ∧ r.2 !! ["data"; "alice"; "2025-06"; "a.log.tmp"] = Some (NFile (b "partial"))
  ∧ (ListFiles no_faults srv r.2
       (get_request "alice" "pa" "alice" "2025-06" "")).1
    = JSONResults 201 ["a.log.tmp"]
  ∧ (GetFile no_faults srv r.2
       (get_request "alice" "pa" "alice" "2025-06" "a.log.tmp")).1
    = Stream (b "partial").
Proof. vm_compute. repeat split. Qed.

End Upload.

(** ** The calendar (package time) and the upload window *)

Section Calendar.
Import time.

Lemma checkRange_spec P k lo :
  checkRange P k lo = true → ∀ z, lo ≤ z < lo + 2 ^ Z.of_nat k → P z = true.
Proof.
  revert lo. induction k as [|k IH]; intros lo H z Hz.
  - simpl in *. assert (z = lo) by lia. by subst.
  - cbn [checkRange] in H. apply andb_true_iff in H as [H1 H2].
    rewrite Nat2Z.inj_succ, Z.pow_succ_r in Hz by lia.
    destruct (Z_lt_le_dec z (lo + 2 ^ Z.of_nat k)).
    + apply (IH lo); [done|lia].
    + apply (IH (lo + 2 ^ Z.of_nat k)); [done|lia].
Qed.

(** The calendar repeats every 400 years, which are 146097 days. *)
Lemma civilDays_period y m d e :
  civilDays (y + 400 * e) m d = civilDays y m d + 146097 * e.
Proof.
  unfold civilDays.
  assert (H : ∀ x, (x + 400 * e) / 400 = x / 400 + e).
  { intros x. rewrite (Z.mul_comm 400 e), Z.div_add by lia. done. }
  destruct (m <=? 2); cbv zeta.
  - replace (y + 400 * e - 1) with (y - 1 + 400 * e) by lia. rewrite H.
    generalize ((y - 1) / 400). intros q.
    replace (y - 1 + 400 * e - (q + e) * 400) with (y - 1 - q * 400) by lia.
    generalize (y - 1 - q * 400). intros yoe. lia.
  - rewrite H. generalize (y / 400). intros q.
    replace (y + 400 * e - (q + e) * 400) with (y - q * 400) by lia.
    generalize (y - q * 400). intros yoe. lia.
Qed.

Lemma daysFromCivil_monthStart y m d :
  daysFromCivil y m d = monthStart (12 * y + m) + d - 1.
Proof.
  unfold monthStart, daysFromCivil.
  replace ((12 * y + m - 1) / 12) with (y + (m - 1) / 12).
  2:{ replace (12 * y + m - 1) with (m - 1 + y * 12) by lia.
      rewrite Z.div_add by lia. lia. }
  replace ((12 * y + m - 1) mod 12) with ((m - 1) mod 12).
  2:{ replace (12 * y + m - 1) with (m - 1 + y * 12) by lia.
      by rewrite Z.mod_add by lia. }
  rewrite Z.add_0_l.
  generalize (y + (m - 1) / 12) ((m - 1) mod 12 + 1). intros Y M.
  unfold civilDays. destruct (M <=? 2); cbv zeta; lia.
Qed.

Lemma monthStart_period k e :
  monthStart (k + 4800 * e) = monthStart k + 146097 * e.
Proof.
  unfold monthStart, daysFromCivil.
  replace ((k + 4800 * e - 1) / 12) with ((k - 1) / 12 + 400 * e).
  2:{ replace (k + 4800 * e - 1) with (k - 1 + (400 * e) * 12) by lia.
      rewrite Z.div_add by lia. lia. }
  replace ((k + 4800 * e - 1) mod 12) with ((k - 1) mod 12).
  2:{ replace (k + 4800 * e - 1) with (k - 1 + (400 * e) * 12) by lia.
      by rewrite Z.mod_add by lia. }
  rewrite !Z.add_0_l. apply civilDays_period.
Qed.

(** Checked on every month of more than one 400-year cycle. *)
Lemma stepOk_cycle : checkRange stepOk 13 0 = true.
Proof. vm_compute. reflexivity. Qed.

Lemma monthStart_step k : monthStart k < monthStart (k + 1).
Proof.
  pose proof (Z.div_mod k 4800 ltac:(lia)) as Hk.
  pose proof (Z.mod_pos_bound k 4800 ltac:(lia)) as Hr.
  set (e := k / 4800) in *. set (r := k mod 4800) in *.
  replace k with (r + 4800 * e) by lia.
  replace (r + 4800 * e + 1) with (r + 1 + 4800 * e) by lia.
  rewrite !monthStart_period.
  pose proof (checkRange_spec stepOk 13 0 stepOk_cycle r ltac:(simpl; lia)) as H.
  unfold stepOk in H. apply Z.ltb_lt in H. lia.
Qed.

Lemma monthStart_lt k k' : k < k' → monthStart k < monthStart k'.
Proof.
  intros H. replace k' with (k + 1 + Z.of_nat (Z.to_nat (k' - k - 1))) by lia.
  induction (Z.to_nat (k' - k - 1)) as [|n IH].
  - rewrite Z.add_0_r. apply monthStart_step.
  - pose proof (monthStart_step (k + 1 + Z.of_nat n)).
    replace (k + 1 + Z.of_nat (S n)) with (k + 1 + Z.of_nat n + 1) by lia. lia.
Qed.

Lemma monthStart_lt_iff k k' : monthStart k < monthStart k' ↔ k < k'.
Proof.
  split; [|apply monthStart_lt].
  intros H. destruct (Z_lt_le_dec k k') as [|Hle]; [done|].
  destruct (Z.eq_dec k k') as [->|]; [lia|].
  pose proof (monthStart_lt k' k ltac:(lia)). lia.
Qed.

Lemma monthStart_le_iff k k' : monthStart k ≤ monthStart k' ↔ k ≤ k'.
Proof. pose proof (monthStart_lt_iff k' k). lia. Qed.

(** Checked on every day of one 400-year cycle. *)
Lemma civilOk_cycle :
  checkRange civilOk 17 (-719468) && checkRange civilOk 14 (-588396) = true.
Proof. vm_compute. reflexivity. Qed.

Lemma civilFromDays_period z e :
  civilFromDays (z + 146097 * e) =
  let '(y, m, d) := civilFromDays z in (y + 400 * e, m, d).
Proof.
  unfold civilFromDays. cbv zeta.
  replace ((z + 146097 * e + 719468) / 146097) with ((z + 719468) / 146097 + e).
  2:{ replace (z + 146097 * e + 719468) with (z + 719468 + e * 146097) by lia.
      by rewrite Z.div_add by lia. }
  generalize ((z + 719468) / 146097). intros era.
  replace (z + 146097 * e + 719468 - (era + e) * 146097)
    with (z + 719468 - era * 146097) by lia.
  generalize (z + 719468 - era * 146097). intros doe.
  match goal with |- context [if ?c then _ else _] => destruct c end;
  match goal with |- context [if ?c then _ else _] => destruct c end;
  f_equal; f_equal; lia.
Qed.

(** The civil date of any day is a date of the calendar, and converting it
    back gives the day. *)
Lemma civilFromDays_ok z :
  let '(y, m, d) := civilFromDays z in
  1 ≤ m ≤ 12 ∧ 1 ≤ d
  ∧ monthStart (12 * y + m) + d - 1 = z
  ∧ z < monthStart (12 * y + m + 1).
Proof.
  pose proof (Z.div_mod (z + 719468) 146097 ltac:(lia)) as Hz.
  pose proof (Z.mod_pos_bound (z + 719468) 146097 ltac:(lia)) as Hr.
  set (e := (z + 719468) / 146097) in *.
  set (r := (z + 719468) mod 146097) in *.
  replace z with (r - 719468 + 146097 * e) by lia.
  rewrite civilFromDays_period.
  assert (H : civilOk (r - 719468) = true).
  { pose proof civilOk_cycle as Hc. apply andb_true_iff in Hc as [H1 H2].
    destruct (Z_lt_le_dec r 131072).
    - apply (checkRange_spec civilOk 17 (-719468) H1). simpl. lia.
    - apply (checkRange_spec civilOk 14 (-588396) H2). simpl. lia. }
  unfold civilOk in H.
  destruct (civilFromDays (r - 719468)) as [[y m] d].
  rewrite !andb_true_iff in H. destruct H as ((((H1 & H2) & H3) & H4) & H5).
  apply Z.leb_le in H1, H2, H3. apply Z.eqb_eq in H4. apply Z.ltb_lt in H5.
  replace (12 * (y + 400 * e) + m) with (12 * y + m + 4800 * e) by lia.
  replace (12 * y + m + 4800 * e + 1) with (12 * y + m + 1 + 4800 * e) by lia.
  rewrite !monthStart_period. lia.
Qed.

Lemma civilFromDays_monthStart y m :
  1 ≤ m ≤ 12 → civilFromDays (daysFromCivil y m 1) = (y, m, 1).
Proof.
  intros Hm. rewrite daysFromCivil_monthStart.
  pose proof (civilFromDays_ok (monthStart (12 * y + m) + 1 - 1)) as H.
  destruct (civilFromDays (monthStart (12 * y + m) + 1 - 1)) as [[y' m'] d'].
  destruct H as (Hm' & Hd' & Heq & Hlt).
  assert (Hk : 12 * y' + m' = 12 * y + m).
  { destruct (Z_lt_le_dec (12 * y' + m') (12 * y + m)) as [Hc|Hc].
    - pose proof (proj2 (monthStart_le_iff (12 * y' + m' + 1) (12 * y + m))
                    ltac:(lia)). lia.
    - destruct (Z.eq_dec (12 * y' + m') (12 * y + m)) as [|Hne]; [done|].
      pose proof (monthStart_lt (12 * y + m) (12 * y' + m') ltac:(lia)). lia. }
  rewrite Hk in Heq. f_equal; [f_equal|]; lia.
Qed.

(** An instant is its day and its clock reading. *)
Lemma clock_split t :
  ((t / nsPerDay) * 86400 + Hour t * 3600 + Minute t * 60 + Second t)
  * 1000000000 + Nanosecond t = t.
Proof.
  unfold Hour, Minute, Second, Nanosecond, nsPerDay.
  Z.to_euclidean_division_equations. lia.
Qed.

(** [AddDate(0, 0, 1)] is 24 hours later. *)
Lemma AddDate_day t : AddDate t 0 0 1 = t + nsPerDay.
Proof.
  unfold AddDate, Date, Year, Month, Day.
  pose proof (civilFromDays_ok (t / nsPerDay)) as H.
  destruct (civilFromDays (t / nsPerDay)) as [[y m] d]. simpl.
  destruct H as (_ & _ & Heq & _).
  rewrite Z.add_0_r, Z.add_0_r, daysFromCivil_monthStart.
  pose proof (clock_split t) as Hc.
  replace (monthStart (12 * y + m) + (d + 1) - 1) with (t / nsPerDay + 1) by lia.
  unfold nsPerDay in *. lia.
Qed.

Lemma Date_midnight y m :
  Date y m 1 0 0 0 0 = monthStart (12 * y + m) * nsPerDay.
Proof. unfold Date, nsPerDay. rewrite daysFromCivil_monthStart. lia. Qed.

Lemma midnight_fields D :
  (D * nsPerDay) / nsPerDay = D ∧ Hour (D * nsPerDay) = 0
  ∧ Minute (D * nsPerDay) = 0 ∧ Second (D * nsPerDay) = 0
  ∧ Nanosecond (D * nsPerDay) = 0.
Proof.
  unfold Hour, Minute, Second, Nanosecond, nsPerDay.
  Z.to_euclidean_division_equations. lia.
Qed.

(** The day of an instant lies in the instant's month. *)
Lemma monthOf_bounds t :
  monthStart (monthOf t) ≤ t / nsPerDay < monthStart (monthOf t + 1)
  ∧ 1 ≤ Month t ≤ 12.
Proof.
  unfold monthOf, Year, Month.
  pose proof (civilFromDays_ok (t / nsPerDay)) as H.
  destruct (civilFromDays (t / nsPerDay)) as [[y m] d]. simpl. lia.
Qed.

(** [firstOfLastMonth] is midnight on the first of the previous month. *)
Lemma firstOfLastMonth_eq now :
  AddDate (Date (Year now) (Month now) 1 0 0 0 0) 0 (-1) 0
  = monthStart (monthOf now - 1) * nsPerDay.
Proof.
  destruct (monthOf_bounds now) as [_ Hm]. unfold monthOf.
  set (y := Year now) in *. set (m := Month now) in *.
  rewrite Date_midnight.
  pose proof (civilFromDays_monthStart y m Hm) as Hc.
  rewrite daysFromCivil_monthStart in Hc.
  replace (monthStart (12 * y + m) + 1 - 1) with (monthStart (12 * y + m)) in Hc
    by lia.
  unfold AddDate, Year, Month, Day.
  destruct (midnight_fields (monthStart (12 * y + m)))
    as (-> & -> & -> & -> & ->).
  rewrite Hc. simpl. rewrite Date_midnight. f_equal. f_equal. lia.
Qed.

Lemma dateInRange_spec now k :
  dateInRange now (monthStart k * nsPerDay) = true
  ↔ monthOf now - 1 ≤ k ∧ monthStart k * nsPerDay ≤ now + nsPerDay.
Proof.
  unfold dateInRange. cbv zeta.
  rewrite firstOfLastMonth_eq, AddDate_day.
  unfold Before, After.
  rewrite negb_true_iff, orb_false_iff, Z.ltb_ge, Z.ltb_ge.
  pose proof (monthStart_le_iff (monthOf now - 1) k).
  unfold nsPerDay in *. lia.
Qed.

Lemma parseMonth_nonempty date ym :
  parseMonth date = Some ym → String.eqb date "" = false.
Proof. by destruct date. Qed.

(** C7: for an upload at the instant [now] with a month token YYYY-MM that
    parses to year [Y] and month [M], the date check rejects exactly when
    the month is earlier than the calendar month before [now]'s or begins
    later than tomorrow, tomorrow being [now] plus 24 hours.  A month two
    calendar months back and a month two calendar months ahead are
    rejected; the previous calendar month and the month tomorrow lies in
    are accepted.  For an authenticated upload with both headers present
    UploadLog answers date_out_of_range exactly when the check rejects. *)
Theorem upload_month_window now date Y M :
  time.parseMonth date = Some (Y, M) →
  let dt := time.Date Y M 1 0 0 0 0 in
  let tomorrow := time.AddDate now 0 0 1 in
  time.Parse date = Some dt
  ∧ tomorrow = now + time.nsPerDay
  ∧ (dateInRange now dt = false
     ↔ 12 * Y + M < monthOf now - 1 ∨ tomorrow < dt)
  ∧ (12 * Y + M = monthOf now - 2 → dateInRange now dt = false)
  ∧ (12 * Y + M = monthOf now + 2 → dateInRange now dt = false)
  ∧ (12 * Y + M = monthOf now - 1 → dateInRange now dt = true)
  ∧ (12 * Y + M = monthOf tomorrow → dateInRange now dt = true)
  ∧ (∀ flt s fs r,
       is_Some (authorized s r) →
       X_File_Date r = date → X_File_Name r ≠ "" →
       ((UploadLog flt now s fs r).1
        = JSONError 400 "date_out_of_range" "Date out of range"
        ↔ dateInRange now dt = false)).
Proof.
  intros Hparse dt tomorrow.
  assert (Hdt : dt = monthStart (12 * Y + M) * time.nsPerDay)
    by apply Date_midnight.
  set (k := 12 * Y + M) in *.
  pose proof (dateInRange_spec now k) as Hs. rewrite <- Hdt in Hs.
  assert (Ht : tomorrow = now + time.nsPerDay) by apply AddDate_day.
  destruct (monthOf_bounds now) as [[Hlo Hhi] _].
  assert (Hdiv : now / time.nsPerDay * time.nsPerDay ≤ now
                 < (now / time.nsPerDay + 1) * time.nsPerDay).
  { unfold time.nsPerDay. Z.to_euclidean_division_equations. lia. }
  assert (Hnp : 0 < time.nsPerDay) by (unfold time.nsPerDay; lia).
  assert (HP : time.Parse date = Some dt).
  { unfold time.Parse. by rewrite Hparse. }
  split; [done|]. split; [done|].
  split; [|split; [|split; [|split; [|split]]]].
  - rewrite <- not_true_iff_false, Hs. lia.
  - intros ->. rewrite <- not_true_iff_false, Hs. lia.
  - intros ->. rewrite <- not_true_iff_false, Hs.
    pose proof (monthStart_step (monthOf now + 1)).
    replace (monthOf now + 1 + 1) with (monthOf now + 2) in * by lia.
    rewrite Hdt. nia.
  - intros ->. apply Hs. split; [lia|].
    pose proof (monthStart_step (monthOf now - 1)).
    replace (monthOf now - 1 + 1) with (monthOf now) in * by lia.
    rewrite Hdt. nia.
  - intros ->. apply Hs.
    destruct (monthOf_bounds tomorrow) as [[Hlo' Hhi'] _].
    assert (Hd : tomorrow / time.nsPerDay = now / time.nsPerDay + 1).
    { rewrite Ht. unfold time.nsPerDay.
      Z.to_euclidean_division_equations. lia. }
    rewrite Hd in *. split.
    + assert (monthOf now < monthOf tomorrow + 1); [|lia].
      apply monthStart_lt_iff. lia.
    + rewrite Hdt, <- Ht. nia.
  - intros flt s fs r [username Hauth] Hdate Hname.
    unfold UploadLog. rewrite Hauth, Hdate, HP.
    rewrite (parseMonth_nonempty _ _ Hparse).
    apply String.eqb_neq in Hname. rewrite Hname. simpl.
    destruct (dateInRange now dt); simpl; [|done].
    split; [|done].
    destruct (os.MkdirAll flt fs _) as [e|fs1]; [done|].
    destruct (os.Create flt fs1 _) as [e|fs2]; [done|].
    destruct (copyBody flt _ r) as [written [|]]; [done|].
    by destruct (os.Rename flt _ _ _).
Qed.

(** At 23:30 on 31 January 2025 an upload for 2025-02, the month tomorrow
    lies in, passes the date check. *)
Lemma upload_month_window_witness :
  dateInRange (time.Date 2025 1 31 23 30 0 0) (time.Date 2025 2 1 0 0 0 0) = true.
Proof.
  destruct (upload_month_window (time.Date 2025 1 31 23 30 0 0) "2025-02"
              2025 2 eq_refl) as (_ & _ & _ & _ & _ & _ & H & _).
  apply H. vm_compute. reflexivity.
Defined.

End Calendar.

(** * Further properties of the code *)

(** ** The indexer: what succeeds, what is listed, what can be fetched *)

Section IndexerMore.

Lemma lastRegular_is_Some es i n e :
  e ∈ es → Flag e = TypeReg → Name e = n → is_Some (lastRegular es i n).
Proof.
  intros He Hf Hn. destruct (lastRegular es i n) eqn:Hl; [done|].
  apply list_elem_of_lookup in He as [k Hk].
  exfalso. by apply (lastRegular_None _ _ _ Hl k e).
Qed.

(** The index of a container: what [scan] records for every name. *)
Lemma NewTarFS_indices flt fs p es t :
  holds fs p es → flt OpOpen p = false → NewTarFS flt fs p = inr t →
  path t = p ∧ format t = detectFormat p ∧
  ∀ n, indices t !! n = (fst <$> lastRegular es 0 n).
Proof.
  intros Hh Hflt Ht.
  destruct (NewTarFS_holds flt fs p es Hh Hflt) as (t' & Ht' & Hscan).
  rewrite Ht in Ht'. injection Ht' as <-.
  apply scan_result in Hscan as (_ & Hp & Hfmt & Hix). simpl in Hp, Hfmt.
  split; [done|]. split; [done|]. intros n. destruct (Hix n) as [-> _].
  by destruct (lastRegular es 0 n) as [[j e]|].
Qed.

(** X1: NewTarFS succeeds exactly on a file that can be opened and holds a
    cleanly ending container of the format its extension names; so it
    fails on a missing file, on a plain file, on a container written with
    another compressor, on a stream that ends in a decode error, and on
    every extension newTarReader does not decode (.br among them). *)
Theorem NewTarFS_succeeds_iff flt fs p :
  (∃ t, NewTarFS flt fs p = inr t)
  ↔ flt OpOpen p = false ∧ ∃ es, holds fs p es.
Proof.
  split.
  - intros [t Ht]. unfold NewTarFS, os.Open in Ht.
    destruct (String.eqb (detectFormat p) "") eqn:Hne; [done|].
    destruct (flt OpOpen p); [done|]. split; [done|].
    destruct (fs !! p) as [f|] eqn:Hlk; [|done].
    assert (Hr : readable (detectFormat p)).
    { unfold newTarReader in Ht. unfold readable.
      destruct (String.eqb_spec (detectFormat p) "gz"); [auto|].
      destruct (String.eqb_spec (detectFormat p) "bz2"); [auto|].
      destruct (String.eqb_spec (detectFormat p) "zst"); [auto|].
      destruct (String.eqb_spec (detectFormat p) "xz"); [auto|done]. }
    rewrite (newTarReader_readable _ _ Hr) in Ht.
    destruct f as [|c|codec [es fin]]; simpl in Ht; try done.
    destruct (String.eqb_spec codec (detectFormat p)) as [->|]; [|done].
    apply scan_result in Ht as [Hfin _]. simpl in Hfin. subst fin.
    exists es, (detectFormat p). done.
  - intros [Hflt [es Hh]].
    destruct (NewTarFS_holds flt fs p es Hh Hflt) as (t & Ht & _). eauto.
Qed.

Lemma EntryPaths_spec flt fs p es t :
  holds fs p es → flt OpOpen p = false → NewTarFS flt fs p = inr t →
  NoDup (EntryPaths t)
  ∧ ∀ n, n ∈ EntryPaths t ↔ ∃ e, e ∈ es ∧ Flag e = TypeReg ∧ Name e = n.
Proof.
  intros Hh Hflt Ht.
  destruct (NewTarFS_indices flt fs p es t Hh Hflt Ht) as (_ & _ & Hix).
  split; [apply NoDup_fst_map_to_list|].
  intros n. unfold EntryPaths. rewrite list_elem_of_fmap. split.
  - intros [[n' j] [-> Hin]]. apply elem_of_map_to_list in Hin.
    rewrite Hix in Hin. simpl in *.
    destruct (lastRegular es 0 n') as [[j' e]|] eqn:Hl; [|done].
    apply lastRegular_Some in Hl as (_ & Hlk & Hn & Hf & _).
    exists e. split; [|done]. by apply list_elem_of_lookup_2 in Hlk.
  - intros (e & He & Hf & Hn).
    destruct (lastRegular_is_Some es 0 n e He Hf Hn) as [[j e'] Hl].
    exists (n, j). split; [done|]. apply elem_of_map_to_list.
    by rewrite Hix, Hl.
Qed.

(** X2: the names EntryPaths returns for the index of a container are the
    names of the container's regular-file entries, each listed once. *)
Theorem EntryPaths_regular_names flt fs p es t :
  holds fs p es → flt OpOpen p = false → NewTarFS flt fs p = inr t →
  NoDup (EntryPaths t)
  ∧ ∀ n, n ∈ EntryPaths t ↔ ∃ e, e ∈ es ∧ Flag e = TypeReg ∧ Name e = n.
Proof. apply EntryPaths_spec. Qed.

Lemma EntryPaths_regular_names_witness :
  NoDup (EntryPaths mixed_index) ∧ "2025-01/b.log" ∈ EntryPaths mixed_index.
Proof.
  destruct (EntryPaths_regular_names no_faults mixed_fs mixed_path
              mixed_entries mixed_index mixed_holds eq_refl)
    as [Hnd Hin].
  - vm_compute. reflexivity.
  - split; [exact Hnd|]. apply Hin.
    exists (mkEntry "2025-01/b.log" TypeReg (b "other")).
    split; [|done]. apply list_elem_of_In. vm_compute. tauto.
Defined.

(** X3: against the container it was built from, a fetch succeeds exactly
    for the names of regular-file entries; a name that no regular-file
    entry has gets the not-found error. *)
Theorem Get_succeeds_iff flt fs p es t n :
  holds fs p es → flt OpOpen p = false → NewTarFS flt fs p = inr t →
  ((∃ d, Get flt fs t n = inr d)
   ↔ ∃ e, e ∈ es ∧ Flag e = TypeReg ∧ Name e = n)
  ∧ ((∀ e, e ∈ es → Name e = n → Flag e ≠ TypeReg)
     → Get flt fs t n = inl (ErrFileNotFound n)).
Proof.
  intros Hh Hflt Ht.
  destruct (NewTarFS_indices flt fs p es t Hh Hflt Ht) as (_ & _ & Hix).
  assert (Hnone : (∀ e, e ∈ es → Name e = n → Flag e ≠ TypeReg)
                  → Get flt fs t n = inl (ErrFileNotFound n)).
  { intros Hno. apply Get_not_indexed. rewrite Hix.
    destruct (lastRegular es 0 n) as [[j e]|] eqn:Hl; [|done].
    apply lastRegular_Some in Hl as (_ & Hlk & Hn & Hf & _).
    apply list_elem_of_lookup_2 in Hlk. by destruct (Hno e Hlk Hn). }
  split; [|done]. split.
  - intros [d Hd].
    destruct (lastRegular es 0 n) as [[j e]|] eqn:Hl.
    + apply lastRegular_Some in Hl as (_ & Hlk & Hn & Hf & _).
      exists e. split; [|done]. by apply list_elem_of_lookup_2 in Hlk.
    + rewrite Hnone in Hd; [done|].
      intros e He Hn Hf. apply list_elem_of_lookup in He as [k Hk].
      by apply (lastRegular_None _ _ _ Hl k e).
  - intros (e & He & Hf & Hn).
    destruct (lastRegular_is_Some es 0 n e He Hf Hn) as [[j e'] Hl].
    destruct (NewTarFS_indexed_entry flt fs p es t n j Hh Hflt Ht)
      as (e2 & _ & _ & _ & _ & Hget); [by rewrite Hix, Hl|]. eauto.
Qed.

Lemma Get_succeeds_iff_witness :
  Get no_faults mixed_fs mixed_index "2025-01/link"
  = inl (ErrFileNotFound "2025-01/link").
Proof.
  apply (Get_succeeds_iff no_faults mixed_fs mixed_path mixed_entries
           mixed_index "2025-01/link" mixed_holds eq_refl).
  - vm_compute. reflexivity.
  - intros e He Hn Hf. apply list_elem_of_In in He. vm_compute in He.
    repeat (destruct He as [<-|He]; [done|]). done.
Defined.

End IndexerMore.

(** ** Rotation: what a fault-free rotation writes, and what stays *)

Section RotationMore.

Lemma Ext_app_r s x : Ext x ≠ "" → Ext (s +:+ x) = Ext x.
Proof.
  intros Hx. induction s as [|c s IH]; [done|]. simpl. rewrite IH.
  by destruct (Ext x).
Qed.



Lemma chooseWriter_writable flt tarPath fmt :
  writable fmt → flt OpNewWriter tarPath = false →
  chooseWriter flt tarPath fmt = Writer true.
Proof. intros [->|[->| ->]] H; unfold chooseWriter; simpl; by rewrite H. Qed.

(** Without faults the walk writes the entry of every node it visits. *)
Lemma walkFiles_no_faults dataDir todo w :
  walkFiles no_faults true dataDir todo w
  = WalkOk (w ++ omap (entryOf dataDir) todo).
Proof.
  revert w. induction todo as [|[p n] rest IH]; intros w; simpl.
  - by rewrite app_nil_r.
  - destruct n; simpl; rewrite IH; unfold entryOf; simpl;
      by rewrite <- ?app_assoc.
Qed.

Lemma walkOrder_insert_outside fs root q x :
  fs !! q = None → ¬ root `prefix_of` q →
  walkOrder (<[q := x]> fs) root
  ≡ₚ filter (λ kv : fpath * node, root `prefix_of` kv.1) (map_to_list fs).
Proof.
  intros Hq Hout. unfold walkOrder. rewrite merge_sort_Permutation.
  rewrite (map_to_list_insert fs q x Hq). by rewrite filter_cons_False.
Qed.

(** A fault-free first rotation: the result of CompressDir. *)
Lemma CompressDir_fresh fs dataDir date fmt :
  let tarPath := dataDir ++ [date +:+ ".tar." +:+ fmt] in
  let root := dataDir ++ [date] in
  writable fmt → fs !! tarPath = None → fs !! dataDir = Some NDir →
  is_Some (fs !! root) →
  CompressDir no_faults fs dataDir date fmt
  = (Return None,
     <[tarPath := NTar fmt (mkStream
         (omap (entryOf dataDir) (walkOrder (<[tarPath := NFile []]> fs) root))
         EndEOF)]> fs).
Proof.
  intros tarPath root Hw Hnone Hdir [r Hroot].
  unfold CompressDir, os.Stat, os.Create. fold tarPath. simpl.
  rewrite Hnone. simpl.
  assert (Hp : parent tarPath = dataDir) by apply removelast_last.
  rewrite Hp, Hdir. rewrite (chooseWriter_writable _ _ _ Hw eq_refl).
  unfold Walk. fold root.
  assert (Hne : tarPath ≠ root).
  { intros H. apply (tarPath_outside_root dataDir date fmt). fold tarPath root.
    by rewrite H. }
  rewrite lookup_insert_ne, Hroot by done.
  rewrite walkFiles_no_faults. simpl. by rewrite insert_insert_eq.
Qed.

Lemma rotation_fresh fs dataDir date fmt :
  let tarPath := dataDir ++ [date +:+ ".tar." +:+ fmt] in
  let root := dataDir ++ [date] in
  writable fmt → fs !! tarPath = None → fs !! dataDir = Some NDir →
  is_Some (fs !! root) →
  ∃ fs' es,
    CompressAndRemove no_faults fs dataDir date fmt = (Return None, fs')
    ∧ fs' !! tarPath = Some (NTar fmt (mkStream es EndEOF))
    ∧ es ≡ₚ omap (entryOf dataDir)
              (filter (λ kv : fpath * node, root `prefix_of` kv.1)
                      (map_to_list fs))
    ∧ (∀ q, root `prefix_of` q → fs' !! q = None)
    ∧ (∀ q, q ≠ tarPath → ¬ root `prefix_of` q → fs' !! q = fs !! q).
Proof.
  intros tarPath root Hw Hnone Hdir Hroot.
  pose proof (CompressDir_fresh fs dataDir date fmt Hw Hnone Hdir Hroot) as Hc.
  fold tarPath root in Hc.
  set (es := omap (entryOf dataDir) (walkOrder (<[tarPath:=NFile []]> fs) root)) in *.
  set (fs1 := <[tarPath:=NTar fmt (mkStream es EndEOF)]> fs) in *.
  exists (os.RemoveAll no_faults fs1 root).2, es.
  assert (Hout : ¬ root `prefix_of` tarPath) by apply tarPath_outside_root.
  split; [|split; [|split; [|split]]].
  - rewrite CompressAndRemove_unfold, Hc. fold root. by rewrite RemoveAll_err.
  - rewrite RemoveAll_outside by done. apply lookup_insert_eq.
  - unfold es. by rewrite walkOrder_insert_outside.
  - intros q Hq. by apply RemoveAll_inside.
  - intros q Hne Hq. rewrite RemoveAll_outside by done.
    by apply lookup_insert_ne.
Qed.

(** X4: a fault-free rotation of a month that has no container yet, with a
    format the server accepts, returns nil; it leaves a finalized container
    that holds exactly one regular-file entry for every file below the
    month directory, named by the file's path relative to the owner's
    directory and carrying the file's bytes; it removes the month directory
    with everything below it and changes nothing else. *)
Theorem rotation_archives_every_file_once fs dataDir date fmt :
  let tarPath := dataDir ++ [date +:+ ".tar." +:+ fmt] in
  let root := dataDir ++ [date] in
  writable fmt → fs !! tarPath = None → fs !! dataDir = Some NDir →
  is_Some (fs !! root) →
  ∃ fs' es,
    CompressAndRemove no_faults fs dataDir date fmt = (Return None, fs')
    ∧ fs' !! tarPath = Some (NTar fmt (mkStream es EndEOF))
    ∧ es ≡ₚ omap (entryOf dataDir)
              (filter (λ kv : fpath * node, root `prefix_of` kv.1)
                      (map_to_list fs))
    ∧ (∀ q, root `prefix_of` q → fs' !! q = None)
    ∧ (∀ q, q ≠ tarPath → ¬ root `prefix_of` q → fs' !! q = fs !! q).
Proof. apply rotation_fresh. Qed.

Lemma rotation_archives_every_file_once_witness :
  ∃ fs' es,
    CompressAndRemove no_faults rot_fs ["data"; "alice"] "2024-01" "zst"
    = (Return None, fs')
    ∧ fs' !! rot_tar = Some (NTar "zst" (mkStream es EndEOF))
    ∧ length es = 2%nat.
Proof.
  destruct (rotation_archives_every_file_once rot_fs ["data"; "alice"]
              "2024-01" "zst") as (fs' & es & H1 & H2 & H3 & _).
  - left. reflexivity.
  - reflexivity.
  - reflexivity.
  - eexists. reflexivity.
  - exists fs', es. split; [exact H1|]. split; [exact H2|].
    rewrite H3. vm_compute. reflexivity.
Defined.







Lemma CompressAndRemove_frame flt fs dataDir date fmt q :
  q ≠ dataDir ++ [date +:+ ".tar." +:+ fmt] →
  ¬ (dataDir ++ [date]) `prefix_of` q →
  (CompressAndRemove flt fs dataDir date fmt).2 !! q = fs !! q.
Proof.
  intros Hne Hout. rewrite CompressAndRemove_unfold.
  pose proof (CompressDir_outside flt fs dataDir date fmt q Hne) as Hc.
  destruct (CompressDir flt fs dataDir date fmt) as [[[e|]|m] fs1];
    simpl in *; try done.
  by rewrite RemoveAll_outside.
Qed.

(** X9: whatever the faults, the format and the outcome (nil, an error or a
    panic), a rotation changes no path other than the month's container and
    the paths in and below the month directory. *)
Theorem rotation_touches_only_its_month flt fs dataDir date fmt q :
  q ≠ dataDir ++ [date +:+ ".tar." +:+ fmt] →
  ¬ (dataDir ++ [date]) `prefix_of` q →
  (CompressAndRemove flt fs dataDir date fmt).2 !! q = fs !! q.
Proof. apply CompressAndRemove_frame. Qed.

Lemma rotation_touches_only_its_month_witness :
  (CompressAndRemove unreadable sweep_fs ["data"; "alice"] "2024-01" "bz2").2
    !! ["data"; "bob"; "2024-01"; "b.log"]
  = sweep_fs !! ["data"; "bob"; "2024-01"; "b.log"].
Proof.
  apply (rotation_touches_only_its_month unreadable sweep_fs
           ["data"; "alice"] "2024-01" "bz2").
  - discriminate.
  - intros [k Hk]. discriminate Hk.
Defined.

End RotationMore.

(** ** Listings: months, live files, and files after a rotation *)

Section ListingMore.

Lemma childName_spec d k n : childName d k = Some n ↔ k = d ++ [n].
Proof.
  revert k. induction d as [|a d IH]; intros k; simpl.
  - destruct k as [|x [|y k]]; split; intros H; try done; congruence.
  - destruct k as [|c k]; [split; [done|]; by destruct d|].
    destruct (String.eqb_spec a c) as [->|Hne].
    + rewrite IH. split; intros H; congruence.
    + split; [done|]. intros [= H _]. done.
Qed.

(** What ReadDir lists: the children of the directory, each with its
    is-directory bit. *)
Lemma ReadDir_spec flt fs d l :
  os.ReadDir flt fs d = inr l →
  fs !! d = Some NDir
  ∧ ∀ n isd, (n, isd) ∈ l
             ↔ ∃ nd, fs !! (d ++ [n]) = Some nd ∧ isd = isDirNode nd.
Proof.
  unfold os.ReadDir. destruct (flt OpReadDir d); [done|].
  destruct (fs !! d) as [[]|] eqn:Hd; try done. intros [= <-].
  split; [done|]. intros n isd.
  rewrite merge_sort_Permutation, list_elem_of_omap. split.
  - intros [[k nd] [Hin Hf]]. apply elem_of_map_to_list in Hin. simpl in Hf.
    destruct (childName d k) as [n'|] eqn:Hc; [|done].
    injection Hf as -> <-. apply childName_spec in Hc as ->.
    exists nd. split; [done|]. by destruct nd.
  - intros (nd & Hlk & ->). exists (d ++ [n], nd). split.
    + by apply elem_of_map_to_list.
    + simpl. rewrite (proj2 (childName_spec d (d ++ [n]) n) eq_refl).
      by destruct nd.
Qed.





Lemma length_append (x y : string) :
  String.length (x +:+ y) = (String.length x + String.length y)%nat.
Proof.
  induction x as [|c x IH]; [reflexivity|].
  change (S (String.length (x +:+ y)) = S (String.length x + String.length y)).
  by f_equal.
Qed.

Lemma stripSuffix_app s e : stripSuffix (s +:+ e) e = Some s.
Proof.
  induction s as [|c s IH]; simpl.
  - destruct e; simpl; [done|]. by rewrite Ascii.eqb_refl, String.eqb_refl.
  - destruct e as [|a e].
    + simpl in *. by rewrite IH.
    + simpl. destruct (Ascii.eqb_spec c a) as [->|].
      * destruct (String.eqb_spec (s +:+ String a e) e) as [Heq|].
        -- exfalso. apply (f_equal String.length) in Heq.
           rewrite length_append in Heq. simpl in Heq. lia.
        -- by rewrite IH.
      * by rewrite IH.
Qed.

Lemma TrimSuffix_app s e : TrimSuffix (s +:+ e) e = s.
Proof. unfold TrimSuffix. by rewrite stripSuffix_app. Qed.

Lemma append_assoc (a c d : string) : (a +:+ c) +:+ d = a +:+ c +:+ d.
Proof.
  induction a as [|x a IH]; [reflexivity|].
  change (String x ((a +:+ c) +:+ d) = String x (a +:+ c +:+ d)). by f_equal.
Qed.

(** A container name without its two extensions is the month. *)
Lemma monthName_container m fmt :
  readable fmt → monthName (m +:+ ".tar." +:+ fmt, false) = m.
Proof.
  intros Hr. unfold monthName.
  assert (H1 : Ext (m +:+ ".tar." +:+ fmt) = "." +:+ fmt).
  { destruct Hr as [->|[->|[->| ->]]]; by rewrite Ext_app_r. }
  rewrite H1.
  replace (m +:+ ".tar." +:+ fmt) with ((m +:+ ".tar") +:+ "." +:+ fmt)
    by (rewrite append_assoc; reflexivity).
  rewrite TrimSuffix_app.
  by rewrite (Ext_app_r m ".tar"), TrimSuffix_app.
Qed.

Lemma collectMonths_spec l m :
  m ∈ collectMonths l
  ↔ ∃ e, e ∈ l ∧ monthName e = m ∧ is_Some (time.Parse m).
Proof.
  induction l as [|e l IH]; simpl.
  - split; [by intros ?%elem_of_nil|]. by intros (e & ?%elem_of_nil & _).
  - destruct (time.Parse (monthName e)) as [t|] eqn:Hp.
    + rewrite elem_of_cons, IH. split.
      * intros [->|(e' & He' & Hm & Hs)].
        -- exists e. rewrite elem_of_cons. by rewrite Hp; eauto.
        -- exists e'. rewrite elem_of_cons. eauto.
      * intros (e' & [->|He']%elem_of_cons & Hm & Hs); [by left|].
        right. eauto.
    + rewrite IH. split.
      * intros (e' & He' & Hm & Hs). exists e'. rewrite elem_of_cons. eauto.
      * intros (e' & [->|He']%elem_of_cons & Hm & Hs).
        -- rewrite <- Hm, Hp in Hs. by destruct Hs.
        -- eauto.
Qed.

Lemma Parse_parseMonth d :
  is_Some (time.Parse d) ↔ is_Some (time.parseMonth d).
Proof.
  unfold time.Parse.
  destruct (time.parseMonth d) as [[y mo]|]; split; intros [x Hx]; eauto; done.
Qed.

(** X17: what ListMonths answers to the owner holds month tokens only; it
    holds the name of every directory in the owner's directory that is a
    month token, and the month of every container file there, whatever the
    accepted extension. *)
Theorem ListMonths_lists_months flt s fs r months :
  authorized s r = Some (user r) →
  ListMonths flt s fs r = JSONResults 201 months →
  let userDir := storage s ++ [user r] in
  (∀ m, m ∈ months → is_Some (time.parseMonth m))
  ∧ (∀ m, is_Some (time.parseMonth m) →
          fs !! (userDir ++ [m]) = Some NDir → m ∈ months)
  ∧ (∀ m fmt nd, is_Some (time.parseMonth m) → readable fmt →
          fs !! (userDir ++ [m +:+ ".tar." +:+ fmt]) = Some nd →
          nd ≠ NDir → m ∈ months).
Proof.
  intros Hauth Hl userDir. unfold ListMonths in Hl.
  rewrite Hauth, String.eqb_refl in Hl. simpl in Hl. fold userDir in Hl.
  destruct (os.ReadDir flt fs userDir) as [e|l] eqn:Hrd; [done|].
  injection Hl as <-. apply ReadDir_spec in Hrd as [_ Hrd].
  split; [|split].
  - intros m (e & _ & _ & Hs)%collectMonths_spec. by apply Parse_parseMonth.
  - intros m Hm Hlk. apply collectMonths_spec. exists (m, true).
    split; [|split; [done|by apply Parse_parseMonth]].
    apply Hrd. by exists NDir.
  - intros m fmt nd Hm Hr Hlk Hnd. apply collectMonths_spec.
    exists (m +:+ ".tar." +:+ fmt, false).
    split; [|split; [by apply monthName_container|by apply Parse_parseMonth]].
    apply Hrd. exists nd. split; [done|]. by destruct nd.
Qed.

Lemma ListMonths_lists_months_witness :
  "2025-06" ∈ listed_months ∧ "2025-01" ∈ listed_months
  ∧ "notes.txt" ∉ listed_months.
Proof.
  destruct (ListMonths_lists_months no_faults srv months_fs
              (get_request "alice" "pa" "alice" "" "") listed_months)
    as (H1 & H2 & H3).
  - reflexivity.
  - vm_compute. reflexivity.
  - split; [|split].
    + apply H2; [by eexists|reflexivity].
    + apply (H3 "2025-01" "zst" (NTar "zst" (mkStream [] EndEOF)));
        [by eexists|unfold readable; auto|reflexivity|discriminate].
    + intros [x Hx]%H1. discriminate Hx.
Defined.

(** With a live month directory ListFiles answers from the directory. *)
Lemma ListFiles_live flt s fs r :
  authorized s r = Some (user r) →
  flt OpReadDir (storage s ++ [user r; date r]) = false →
  fs !! (storage s ++ [user r; date r]) = Some NDir →
  ∃ names,
    ListFiles flt s fs r = (JSONResults 201 names, s)
    ∧ ∀ f, f ∈ names ↔ is_Some (fs !! (storage s ++ [user r; date r; f])).
Proof.
  intros Hauth Hflt Hdir. unfold ListFiles.
  rewrite Hauth, String.eqb_refl. simpl.
  destruct (os.ReadDir flt fs (storage s ++ [user r; date r])) as [e|l] eqn:Hrd.
  { unfold os.ReadDir in Hrd. by rewrite Hflt, Hdir in Hrd. }
  exists (l.*1). split; [done|]. apply ReadDir_spec in Hrd as [_ Hrd].
  intros f. rewrite list_elem_of_fmap. split.
  - intros [[n isd] [-> Hin]]. apply Hrd in Hin as (nd & Hlk & _). simpl.
    rewrite <- app_assoc in Hlk. eauto.
  - intros [nd Hlk]. exists (f, isDirNode nd). split; [done|]. apply Hrd.
    exists nd. rewrite <- app_assoc. done.
Qed.

(** X16: while the month's live directory exists and can be read,
    ListFiles answers the owner from the directory alone: it lists exactly
    the names in it and leaves the cache as it is, whatever container
    exists for the month. *)
Theorem list_files_live flt s fs r :
  authorized s r = Some (user r) →
  flt OpReadDir (storage s ++ [user r; date r]) = false →
  fs !! (storage s ++ [user r; date r]) = Some NDir →
  ∃ names,
    ListFiles flt s fs r = (JSONResults 201 names, s)
    ∧ ∀ f, f ∈ names ↔ is_Some (fs !! (storage s ++ [user r; date r; f])).
Proof. apply ListFiles_live. Qed.

Lemma list_files_live_witness :
  ∃ names,
    ListFiles no_faults srv both_fs alice_get = (JSONResults 201 names, srv)
    ∧ "a.log" ∈ names.
Proof.
  destruct (list_files_live no_faults srv both_fs alice_get)
    as (names & Hl & Hn); [reflexivity..|].
  exists names. split; [exact Hl|]. apply Hn. by eexists.
Defined.

End ListingMore.

(** ** The server: live storage, archive and cache together *)

Section ServerMore.

(** GetFile for an authenticated request for one's own files with a
    well-formed month. *)
Lemma GetFile_authorized flt s fs r :
  authorized s r = Some (user r) → is_Some (time.Parse (date r)) →
  GetFile flt s fs r =
    match os.Open flt fs (storage s ++ [user r; date r; name r]) with
    | inr f => (Stream (nodeBytes f), s)
    | inl _ =>
        match lookupTarFS flt s fs (user r) (date r) with
        | inl _ => (file_not_found, s)
        | inr (tfs, s') =>
            match Get flt fs tfs (date r +:+ "/" +:+ name r) with
            | inl _ => (file_not_found, s')
            | inr f => (Stream f, s')
            end
        end
    end.
Proof.
  intros Hauth [dt Hdate]. unfold GetFile.
  by rewrite Hauth, String.eqb_refl, Hdate.
Qed.

Lemma snoc2 (l : fpath) a c : l ++ [a; c] = (l ++ [a]) ++ [c].
Proof. by rewrite <- app_assoc. Qed.






(** X15: GetFile and ListFiles never drop or replace a cached index and
    never touch the cache entry of another month; they leave the
    authenticator, the storage root and the format as they are. *)
Theorem cache_only_grows flt s fs r :
  ∀ s', s' = (GetFile flt s fs r).2 ∨ s' = (ListFiles flt s fs r).2 →
    auth s' = auth s ∧ storage s' = storage s ∧ compress s' = compress s
    ∧ (∀ d t, tarFS s !! d = Some t → tarFS s' !! d = Some t)
    ∧ (∀ d, d ≠ date r → tarFS s' !! d = tarFS s !! d).
Proof.
  assert (Hl : ∀ u t s1, lookupTarFS flt s fs u (date r) = inr (t, s1) →
    auth s1 = auth s ∧ storage s1 = storage s ∧ compress s1 = compress s
    ∧ (∀ d t, tarFS s !! d = Some t → tarFS s1 !! d = Some t)
    ∧ (∀ d, d ≠ date r → tarFS s1 !! d = tarFS s !! d)).
  { intros u t s1. unfold lookupTarFS.
    destruct (tarFS s !! date r) as [t0|] eqn:Hc.
    - intros [= <- <-]. done.
    - destruct (NewTarFS flt fs _) as [e|t1]; [done|]. intros [= <- <-].
      simpl. repeat split; try done.
      + intros d t' Hd. rewrite lookup_insert_ne; [done|]. congruence.
      + intros d Hd. by rewrite lookup_insert_ne. }
  intros s' [-> | ->].
  - unfold GetFile. destruct (authorized s r); [|done].
    destruct (negb _); [done|]. destruct (time.Parse _); [|done].
    destruct (os.Open _ _ _); [|done].
    destruct (lookupTarFS flt s fs (user r) (date r)) as [?|[t s1]] eqn:Hlk;
      [done|].
    apply Hl in Hlk. by destruct (Get _ _ _ _).
  - unfold ListFiles. destruct (authorized s r); [|done].
    destruct (negb _); [done|].
    destruct (os.ReadDir _ _ _); [|done].
    destruct (lookupTarFS flt s fs (user r) (date r)) as [?|[t s1]] eqn:Hlk;
      [done|].
    by apply Hl in Hlk.
Qed.

Lemma cache_only_grows_witness :
  storage srv_after_alice = storage srv
  ∧ tarFS srv_after_alice !! "2024-12" = tarFS srv !! "2024-12".
Proof.
  destruct (cache_only_grows no_faults srv two_fs alice_get srv_after_alice)
    as (_ & H2 & _ & _ & H5).
  - left. reflexivity.
  - split; [exact H2|]. apply H5. discriminate.
Defined.

(** X18: file bytes and listings go only to a request whose credentials
    verify and whose user is the owner named in the path. *)
Theorem only_owner_is_served flt s fs r :
  (∀ body, (GetFile flt s fs r).1 = Stream body →
           authorized s r = Some (user r))
  ∧ (∀ st names, (ListFiles flt s fs r).1 = JSONResults st names →
                 authorized s r = Some (user r))
  ∧ (∀ st names, ListMonths flt s fs r = JSONResults st names →
                 authorized s r = Some (user r)).
Proof.
  split; [|split].
  - intros body. unfold GetFile. destruct (authorized s r) as [u|]; [|done].
    destruct (String.eqb_spec u (user r)) as [->|]; [done|done].
  - intros st names. unfold ListFiles.
    destruct (authorized s r) as [u|]; [|done].
    destruct (String.eqb_spec u (user r)) as [->|]; [done|done].
  - intros st names. unfold ListMonths.
    destruct (authorized s r) as [u|]; [|done].
    destruct (String.eqb_spec u (user r)) as [->|]; [done|done].
Qed.

End ServerMore.

(** ** Uploads: what an upload stores and what it leaves alone *)

Section UploadMore.

Lemma pair_eta_fst {A B} (x : A * B) a : x.1 = a → x = (a, x.2).
Proof. destruct x; simpl; congruence. Qed.

Lemma MkdirAll_keeps flt fs fs1 p q nd :
  os.MkdirAll flt fs p = inr fs1 → fs !! q = Some nd → fs1 !! q = Some nd.
Proof.
  unfold os.MkdirAll. destruct (flt OpMkdirAll p); [done|].
  destruct (os.blocked fs p) eqn:Hb; [done|]. intros [= <-] Hq.
  unfold os.blocked in Hb.
  assert (Hks : ∀ k, k ∈ seq 1 (length p) →
                fs !! take k p = None ∨ fs !! take k p = Some NDir).
  { intros k Hk. apply list_elem_of_In in Hk.
    destruct (fs !! take k p) as [[]|] eqn:Hlk; auto;
      exfalso; apply not_true_iff_false in Hb; apply Hb;
      apply existsb_exists; exists k; by rewrite Hlk. }
  clear Hb. revert Hks. generalize (seq 1 (length p)). intros ks.
  induction ks as [|k ks IH]; intros Hks; simpl; [done|].
  destruct (decide (take k p = q)) as [<-|Hne].
  - destruct (Hks k) as [H|H]; [by left|congruence|].
    rewrite Hq in H. injection H as ->. apply lookup_insert_eq.
  - rewrite lookup_insert_ne by done. apply IH.
    intros k' Hk'. apply Hks. by right.
Qed.

Lemma Create_keeps flt fs fs1 p q nd :
  os.Create flt fs p = inr fs1 → q ≠ p → fs !! q = Some nd → fs1 !! q = Some nd.
Proof.
  unfold os.Create. destruct (flt OpCreate p); [done|].
  destruct (fs !! parent p) as [[]|]; try done;
    destruct (fs !! p) as [[]|]; try done;
    intros [= <-] Hne Hq; by rewrite lookup_insert_ne.
Qed.

Lemma Rename_keeps flt fs fs1 src dst q nd :
  os.Rename flt fs src dst = inr fs1 → q ≠ src → q ≠ dst →
  fs !! q = Some nd → fs1 !! q = Some nd.
Proof.
  unfold os.Rename. destruct (flt OpRename dst); [done|].
  destruct (fs !! src) as [n|]; [|done].
  destruct (fs !! dst) as [[]|]; try done;
    intros [= <-] H1 H2 Hq; by rewrite lookup_insert_ne, lookup_delete_ne.
Qed.

(** X10: an upload answered with status 201 has stored the request body,
    whole, at the target path below the authenticated user's month
    directory; the temporary file is gone and the month directory exists. *)
Theorem accepted_upload_stores_payload flt now s fs fs' r :
  UploadLog flt now s fs r = (JSONMessage 201, fs') →
  ∃ username,
    authorized s r = Some username
    ∧ fs' !! (storage s ++ [username; X_File_Date r; X_File_Name r])
      = Some (NFile (Body r))
    ∧ fs' !! (storage s ++ [username; X_File_Date r; X_File_Name r +:+ ".tmp"])
      = None
    ∧ fs' !! (storage s ++ [username; X_File_Date r]) = Some NDir.
Proof. apply upload_stores_payload. Qed.

Lemma good_upload_accepted :
  UploadLog no_faults upload_now srv upload_fs good_upload
  = (JSONMessage 201, uploaded_fs).
Proof. apply pair_eta_fst. vm_compute. reflexivity. Qed.

Lemma accepted_upload_stores_payload_witness :
  uploaded_fs !! ["data"; "alice"; "2025-06"; "a.log"]
  = Some (NFile (b "payload")).
Proof.
  destruct (accepted_upload_stores_payload no_faults upload_now srv upload_fs
              uploaded_fs good_upload good_upload_accepted)
    as (u & Hu & Hp & _).
  assert (Ha : authorized srv good_upload = Some "alice") by reflexivity.
  rewrite Ha in Hu. injection Hu as <-. exact Hp.
Defined.

(** X11: after an accepted upload, a get by the same user of the same
    month and name returns exactly the uploaded body, from live storage,
    and leaves the cache alone. *)
Theorem upload_then_get flt now s fs fs' r g :
  UploadLog flt now s fs r = (JSONMessage 201, fs') →
  BasicAuth g = BasicAuth r →
  authorized s r = Some (user g) →
  date g = X_File_Date r → name g = X_File_Name r →
  flt OpOpen (storage s ++ [user g; date g; name g]) = false →
  GetFile flt s fs' g = (Stream (Body r), s).
Proof.
  intros Hup Hba Hauth Hd Hn Hflt.
  destruct (upload_stores_payload flt now s fs fs' r Hup)
    as (username & Hauth' & Hpay & _).
  rewrite Hauth in Hauth'. injection Hauth' as <-.
  assert (Hag : authorized s g = Some (user g)).
  { unfold authorized in *. by rewrite Hba. }
  assert (Hparse : is_Some (time.Parse (date g))).
  { rewrite Hd. unfold UploadLog in Hup. rewrite Hauth in Hup.
    destruct (String.eqb (X_File_Date r) "" || String.eqb (X_File_Name r) "");
      [done|].
    by destruct (time.Parse (X_File_Date r)). }
  rewrite (GetFile_authorized _ _ _ _ Hag Hparse). unfold os.Open.
  by rewrite Hflt, Hd, Hn, Hpay.
Qed.

Lemma upload_then_get_witness :
  GetFile no_faults srv uploaded_fs alice_new_get
  = (Stream (b "payload"), srv).
Proof.
  apply (upload_then_get no_faults upload_now srv upload_fs uploaded_fs
           good_upload alice_new_get good_upload_accepted); reflexivity.
Defined.

(** X12: after an accepted upload the listing of the month shows the
    uploaded name and does not show the temporary name. *)
Theorem upload_then_list flt now s fs fs' r g :
  UploadLog flt now s fs r = (JSONMessage 201, fs') →
  BasicAuth g = BasicAuth r → authorized s r = Some (user g) →
  date g = X_File_Date r →
  flt OpReadDir (storage s ++ [user g; date g]) = false →
  ∃ names,
    ListFiles flt s fs' g = (JSONResults 201 names, s)
    ∧ X_File_Name r ∈ names
    ∧ X_File_Name r +:+ ".tmp" ∉ names.
Proof.
  intros Hup Hba Hauth Hd Hflt.
  destruct (upload_stores_payload flt now s fs fs' r Hup)
    as (username & Hauth' & Hpay & Htmp & Hdir).
  rewrite Hauth in Hauth'. injection Hauth' as <-.
  assert (Hag : authorized s g = Some (user g)).
  { unfold authorized in *. by rewrite Hba. }
  rewrite <- Hd in Hpay, Htmp, Hdir.
  destruct (ListFiles_live flt s fs' g Hag Hflt Hdir) as (names & Hl & Hn).
  exists names. split; [done|]. split.
  - apply Hn. by rewrite Hpay.
  - intros H%Hn. rewrite Htmp in H. by destruct H.
Qed.

Lemma upload_then_list_witness :
  ∃ names,
    ListFiles no_faults srv uploaded_fs alice_new_get
    = (JSONResults 201 names, srv)
    ∧ "a.log" ∈ names.
Proof.
  destruct (upload_then_list no_faults upload_now srv upload_fs uploaded_fs
              good_upload alice_new_get good_upload_accepted)
    as (names & Hl & Hn & _); [reflexivity..|].
  exists names. split; [exact Hl|exact Hn].
Defined.

(** X13: whatever its outcome, an upload leaves every existing file and
    directory as it is, except the target path and its temporary file. *)
Theorem upload_keeps_other_files flt now s fs r username q nd :
  authorized s r = Some username →
  let dataDir := storage s ++ [username; X_File_Date r] in
  fs !! q = Some nd →
  q ≠ dataDir ++ [X_File_Name r] → q ≠ dataDir ++ [X_File_Name r +:+ ".tmp"] →
  (UploadLog flt now s fs r).2 !! q = Some nd.
Proof.
  intros Hauth dataDir Hq Hn1 Hn2. unfold UploadLog. rewrite Hauth.
  destruct (_ || _); [done|].
  destruct (time.Parse _); [|done].
  destruct (negb _); [done|]. fold dataDir.
  destruct (os.MkdirAll flt fs dataDir) as [e|fs1] eqn:Hmk; [done|].
  pose proof (MkdirAll_keeps _ _ _ _ _ _ Hmk Hq) as Hq1.
  destruct (os.Create flt fs1 _) as [e|fs2] eqn:Hcr; [done|].
  pose proof (Create_keeps _ _ _ _ _ _ Hcr Hn2 Hq1) as Hq2.
  destruct (copyBody _ _ _) as [written failed].
  assert (Hq3 : <[dataDir ++ [X_File_Name r +:+ ".tmp"] := NFile written]> fs2
                !! q = Some nd) by (by rewrite lookup_insert_ne).
  destruct failed; [done|].
  destruct (os.Rename _ _ _ _) as [e|fs4] eqn:Hrn; [done|].
  simpl. by apply (Rename_keeps _ _ _ _ _ _ _ Hrn).
Qed.

Lemma upload_keeps_other_files_witness :
  (UploadLog no_faults upload_now srv both_fs broken_upload).2
    !! ["data"; "alice"; "2025-01"; "a.log"]
  = Some (NFile (b "live")).
Proof.
  apply (upload_keeps_other_files no_faults upload_now srv both_fs
           broken_upload "alice").
  - reflexivity.
  - reflexivity.
  - discriminate.
  - discriminate.
Defined.

(** X14: an upload answered with status 400 or 401 has changed nothing in
    storage. *)
Theorem upload_rejected_changes_nothing flt now s fs r st code msg :
  (UploadLog flt now s fs r).1 = JSONError st code msg →
  st = 400 ∨ st = 401 →
  (UploadLog flt now s fs r).2 = fs.
Proof.
  unfold UploadLog. destruct (authorized s r); [|done].
  destruct (_ || _); [done|].
  destruct (time.Parse _); [|done].
  destruct (negb _); [done|].
  destruct (os.MkdirAll _ _ _) as [e|fs1]; [by intros [= <- _ _] [|]|].
  destruct (os.Create _ _ _) as [e|fs2]; [by intros [= <- _ _] [|]|].
  destruct (copyBody _ _ _) as [written [|]]; [by intros [= <- _ _] [|]|].
  destruct (os.Rename _ _ _ _); [by intros [= <- _ _] [|]|done].
Qed.

Lemma upload_rejected_changes_nothing_witness :
  (UploadLog no_faults upload_now srv upload_fs late_upload).2 = upload_fs.
Proof.
  apply (upload_rejected_changes_nothing no_faults upload_now srv upload_fs
           late_upload 400 "date_out_of_range" "Date out of range").
  - vm_compute. reflexivity.
  - left. reflexivity.
Defined.

End UploadMore.

(** ** Month tokens: printing, parsing and their order *)

Section MonthTokens.
Import time.

Lemma digit_range c x : digit c = Some x → 0 ≤ x ≤ 9.
Proof.
  unfold digit. destruct (_ && _) eqn:H; [|done]. intros [= <-].
  apply andb_true_iff in H as [H1 H2]. apply Z.leb_le in H1, H2. lia.
Qed.

Lemma digit_compare c1 c2 x1 x2 :
  digit c1 = Some x1 → digit c2 = Some x2 →
  Ascii.compare c1 c2 = (x1 ?= x2).
Proof.
  unfold digit. destruct (_ && _); [|done]. destruct (_ && _); [|done].
  intros [= <-] [= <-]. unfold Ascii.compare, nat_of_ascii.
  rewrite !N_nat_Z, <- N2Z.inj_compare.
  destruct (Z.compare_spec (Z.of_N (N_of_ascii c1)) (Z.of_N (N_of_ascii c2)));
    symmetry; [apply Z.compare_eq_iff|apply Z.compare_lt_iff|apply Z.compare_gt_iff];
    lia.
Qed.

Lemma digit_char x :
  0 ≤ x ≤ 9 → digit (ascii_of_nat (Z.to_nat (48 + x))) = Some x.
Proof.
  intros H.
  assert (x = 0 ∨ x = 1 ∨ x = 2 ∨ x = 3 ∨ x = 4 ∨ x = 5 ∨ x = 6 ∨ x = 7
          ∨ x = 8 ∨ x = 9) as Hx by lia.
  repeat destruct Hx as [->|Hx]; try subst x; reflexivity.
Qed.

(** On month tokens the string order is the order of the months. *)
Lemma month_tokens_order a c y1 m1 y2 m2 :
  parseMonth a = Some (y1, m1) → parseMonth c = Some (y2, m2) →
  (String.ltb a c = true ↔ 12 * y1 + m1 < 12 * y2 + m2).
Proof.
  intros Ha Hc.
  destruct a as [|a1 [|a2 [|a3 [|a4 [|a5 [|a6 [|a7 [|? ?]]]]]]]]; try done.
  destruct c as [|c1 [|c2 [|c3 [|c4 [|c5 [|c6 [|c7 [|? ?]]]]]]]]; try done.
  unfold parseMonth in Ha, Hc.
  destruct (digit a1) as [p1|] eqn:A1; [|done].
  destruct (digit a2) as [p2|] eqn:A2; [|done].
  destruct (digit a3) as [p3|] eqn:A3; [|done].
  destruct (digit a4) as [p4|] eqn:A4; [|done].
  destruct (digit a6) as [p6|] eqn:A6; [|done].
  destruct (digit a7) as [p7|] eqn:A7; [|done].
  destruct (digit c1) as [q1|] eqn:C1; [|done].
  destruct (digit c2) as [q2|] eqn:C2; [|done].
  destruct (digit c3) as [q3|] eqn:C3; [|done].
  destruct (digit c4) as [q4|] eqn:C4; [|done].
  destruct (digit c6) as [q6|] eqn:C6; [|done].
  destruct (digit c7) as [q7|] eqn:C7; [|done].
  destruct (Ascii.eqb_spec a5 "-"%char) as [->|]; [|done].
  destruct (Ascii.eqb_spec c5 "-"%char) as [->|]; [|done].
  simpl in Ha, Hc.
  destruct ((1 <=? p6 * 10 + p7) && (p6 * 10 + p7 <=? 12)) eqn:Hma; [|done].
  destruct ((1 <=? q6 * 10 + q7) && (q6 * 10 + q7 <=? 12)) eqn:Hmc; [|done].
  injection Ha as <- <-. injection Hc as <- <-.
  apply andb_true_iff in Hma as [Ha1 Ha2]. apply Z.leb_le in Ha1, Ha2.
  apply andb_true_iff in Hmc as [Hc1 Hc2]. apply Z.leb_le in Hc1, Hc2.
  pose proof (digit_range _ _ A1). pose proof (digit_range _ _ A2).
  pose proof (digit_range _ _ A3). pose proof (digit_range _ _ A4).
  pose proof (digit_range _ _ A6). pose proof (digit_range _ _ A7).
  pose proof (digit_range _ _ C1). pose proof (digit_range _ _ C2).
  pose proof (digit_range _ _ C3). pose proof (digit_range _ _ C4).
  pose proof (digit_range _ _ C6). pose proof (digit_range _ _ C7).
  unfold String.ltb. cbn [String.compare].
  rewrite (digit_compare _ _ _ _ A1 C1), (digit_compare _ _ _ _ A2 C2),
    (digit_compare _ _ _ _ A3 C3), (digit_compare _ _ _ _ A4 C4),
    (digit_compare _ _ _ _ A6 C6), (digit_compare _ _ _ _ A7 C7).
  change (Ascii.compare "-" "-") with Eq.
  destruct (Z.compare_spec p1 q1); [|split; [lia|done]|split; [done|lia]].
  destruct (Z.compare_spec p2 q2); [|split; [lia|done]|split; [done|lia]].
  destruct (Z.compare_spec p3 q3); [|split; [lia|done]|split; [done|lia]].
  destruct (Z.compare_spec p4 q4); [|split; [lia|done]|split; [done|lia]].
  destruct (Z.compare_spec p6 q6); [|split; [lia|done]|split; [done|lia]].
  destruct (Z.compare_spec p7 q7); [|split; [lia|done]|split; [done|lia]].
  split; [done|lia].
Qed.

(** X21: on month tokens the byte-wise string order, which the sweep
    compares directory names with, is the chronological order of the
    months. *)
Theorem month_tokens_sort_by_time a c y1 m1 y2 m2 :
  parseMonth a = Some (y1, m1) → parseMonth c = Some (y2, m2) →
  (String.ltb a c = true ↔ 12 * y1 + m1 < 12 * y2 + m2).
Proof. apply month_tokens_order. Qed.

Lemma month_tokens_sort_by_time_witness :
  String.ltb "2024-12" "2025-01" = true.
Proof.
  apply (month_tokens_sort_by_time "2024-12" "2025-01" 2024 12 2025 1);
    [reflexivity|reflexivity|lia].
Defined.

(** The token of an instant parses back to its year and month. *)
Lemma Format_parseMonth t :
  0 ≤ Year t ≤ 9999 → parseMonth (Format t) = Some (Year t, Month t).
Proof.
  intros Hy. destruct (monthOf_bounds t) as [_ Hm].
  unfold Format. set (y := Year t) in *. set (m := Month t) in *.
  change (digits 4 y +:+ "-" +:+ digits 2 m)
    with (String (ascii_of_nat (Z.to_nat (48 + (y / 10 / 10 / 10) mod 10)))
         (String (ascii_of_nat (Z.to_nat (48 + (y / 10 / 10) mod 10)))
         (String (ascii_of_nat (Z.to_nat (48 + (y / 10) mod 10)))
         (String (ascii_of_nat (Z.to_nat (48 + y mod 10)))
         (String "-"%char
         (String (ascii_of_nat (Z.to_nat (48 + (m / 10) mod 10)))
         (String (ascii_of_nat (Z.to_nat (48 + m mod 10))) ""))))))).
  unfold parseMonth.
  rewrite !digit_char by (Z.to_euclidean_division_equations; lia).
  simpl.
  replace ((m / 10) mod 10 * 10 + m mod 10) with m
    by (Z.to_euclidean_division_equations; lia).
  replace (1 <=? m) with true by (symmetry; apply Z.leb_le; lia).
  replace (m <=? 12) with true by (symmetry; apply Z.leb_le; lia).
  simpl. f_equal. f_equal. Z.to_euclidean_division_equations. lia.
Qed.

(** X25: the token Format prints for an instant in the years 0 to 9999 is
    a month token, and parsing it gives back the instant's year and
    month. *)
Theorem Format_parses t :
  0 ≤ Year t ≤ 9999 → parseMonth (Format t) = Some (Year t, Month t).
Proof. apply Format_parseMonth. Qed.

Lemma Format_parses_witness :
  parseMonth (Format sweep_now) = Some (Year sweep_now, Month sweep_now).
Proof.
  apply (Format_parses sweep_now).
  split; apply Z.leb_le; vm_compute; reflexivity.
Defined.



(** X23: the date check of an upload accepts exactly the months from the
    calendar month before [now]'s to the month the next day lies in. *)
Theorem accepted_months_window now Y M :
  dateInRange now (Date Y M 1 0 0 0 0) = true
  ↔ monthOf now - 1 ≤ 12 * Y + M ≤ monthOf (AddDate now 0 0 1).
Proof.
  rewrite Date_midnight, dateInRange_spec, AddDate_day.
  set (k := 12 * Y + M). set (t := now + nsPerDay).
  destruct (monthOf_bounds t) as [[Hlo Hhi] _].
  assert (Hdiv : t / nsPerDay * nsPerDay ≤ t < (t / nsPerDay + 1) * nsPerDay).
  { unfold nsPerDay. Z.to_euclidean_division_equations. lia. }
  assert (Hnp : 0 < nsPerDay) by (unfold nsPerDay; lia).
  assert (Hk : monthStart k * nsPerDay ≤ t ↔ k ≤ monthOf t).
  { split.
    - intros H. destruct (Z_lt_le_dec (monthOf t) k) as [Hlt|]; [|done].
      pose proof (proj2 (monthStart_le_iff (monthOf t + 1) k) ltac:(lia)). nia.
    - intros H. pose proof (proj2 (monthStart_le_iff k (monthOf t)) H). nia. }
  rewrite Hk. lia.
Qed.

End MonthTokens.

(** ** The sweep: what it rotates and what it keeps *)

Section SweepMore.

Lemma sweepDates_frame flt fmt thenName userPath dateDirs fs tarballs q :
  (∀ d, is_Some (time.Parse d) → String.ltb d thenName = true →
        q ≠ userPath ++ [d +:+ ".tar." +:+ fmt]
        ∧ ¬ (userPath ++ [d]) `prefix_of` q) →
  (sweepDates flt fmt thenName userPath dateDirs fs tarballs).2 !! q = fs !! q.
Proof.
  intros Hq. revert fs tarballs.
  induction dateDirs as [|[d isDir] rest IH]; intros fs tarballs; simpl; [done|].
  destruct isDir; simpl; [|apply IH].
  destruct (bool_decide (is_Some (time.Parse d))) eqn:Hp; simpl; [|apply IH].
  apply bool_decide_eq_true in Hp.
  destruct (String.ltb d thenName) eqn:Hlt; simpl; [|apply IH].
  destruct (Hq d Hp Hlt) as [H1 H2].
  pose proof (CompressAndRemove_frame flt fs userPath d fmt q H1 H2) as Hf.
  destruct (CompressAndRemove flt fs userPath d fmt) as [[[e|]|m] fs1];
    simpl in *; try done.
  by rewrite IH.
Qed.

Lemma sweepUsers_frame flt fmt thenName storage userDirs fs tarballs q :
  (∀ u d, is_Some (time.Parse d) → String.ltb d thenName = true →
        q ≠ storage ++ [u; d +:+ ".tar." +:+ fmt]
        ∧ ¬ (storage ++ [u; d]) `prefix_of` q) →
  (sweepUsers flt fmt thenName storage userDirs fs tarballs).2 !! q = fs !! q.
Proof.
  intros Hq. revert fs tarballs.
  induction userDirs as [|[u isDir] rest IH]; intros fs tarballs; simpl; [done|].
  destruct isDir; simpl; [|apply IH].
  destruct (os.ReadDir flt fs (storage ++ [u])) as [e|dateDirs]; [apply IH|].
  pose proof (sweepDates_frame flt fmt thenName (storage ++ [u]) dateDirs fs
                tarballs q) as Hf.
  destruct (sweepDates flt fmt thenName (storage ++ [u]) dateDirs fs tarballs)
    as [[tb|e|m] fs1]; simpl in *.
  - rewrite IH. apply Hf. intros d Hp Hlt. rewrite <- !snoc2. by apply Hq.
  - apply Hf. intros d Hp Hlt. rewrite <- !snoc2. by apply Hq.
  - apply Hf. intros d Hp Hlt. rewrite <- !snoc2. by apply Hq.
Qed.

Lemma parseMonth_length d ym : time.parseMonth d = Some ym → String.length d = 7%nat.
Proof.
  destruct d as [|? [|? [|? [|? [|? [|? [|? [|? ?]]]]]]]]; try done.
Qed.

(** X19: whatever happens during a sweep, it changes nothing in or below
    a month directory whose name is a month token that does not sort
    before the cutoff token. *)
Theorem sweep_keeps_recent_months flt s fs now stale u d rest :
  let thenName := time.Format (time.Add now (- stale)) in
  is_Some (time.parseMonth d) → String.ltb d thenName = false →
  (CompressAll flt s fs now stale).2 !! (storage s ++ [u; d] ++ rest)
  = fs !! (storage s ++ [u; d] ++ rest).
Proof.
  intros thenName [ym Hd] Hge. unfold CompressAll. fold thenName.
  destruct (os.ReadDir flt fs (storage s)) as [e|userDirs]; [done|].
  apply sweepUsers_frame. intros u' d' [t Hp'] Hlt. split.
  - intros H. apply app_inv_head in H. injection H as -> Hdd.
    apply parseMonth_length in Hd. rewrite Hdd, !length_append in Hd.
    simpl in Hd.
    unfold time.Parse in Hp'.
    destruct (time.parseMonth d') as [ym'|] eqn:Hd'; [|done].
    apply parseMonth_length in Hd'. lia.
  - intros H. change (storage s ++ [u; d] ++ rest)
      with (storage s ++ [u; d] ++ rest) in H.
    apply prefix_app_inv in H. apply prefix_cons_inv_2 in H as H2.
    apply prefix_cons_inv_1 in H2. subst d'. congruence.
Qed.

Lemma sweep_keeps_recent_months_witness :
  (CompressAll no_faults srv recent_fs sweep_now staleAfter).2
    !! ["data"; "alice"; "2025-05"; "x.log"]
  = recent_fs !! ["data"; "alice"; "2025-05"; "x.log"].
Proof.
  apply (sweep_keeps_recent_months no_faults srv recent_fs sweep_now
           staleAfter "alice" "2025-05" ["x.log"]).
  - by eexists.
  - vm_compute. reflexivity.
Defined.

Lemma month_ne_container d d' fmt :
  is_Some (time.parseMonth d) → is_Some (time.parseMonth d') →
  d ≠ d' +:+ ".tar." +:+ fmt.
Proof.
  intros [ym Hd] [ym' Hd'] ->.
  apply parseMonth_length in Hd, Hd'. rewrite !length_append in Hd.
  simpl in Hd. lia.
Qed.

(** A rotation that returns nil leaves the container in place and the
    directory gone, provided the existence check could be made. *)
Lemma CompressAndRemove_ok flt fs fs1 dataDir date fmt :
  flt OpStat (dataDir ++ [date +:+ ".tar." +:+ fmt]) = false →
  CompressAndRemove flt fs dataDir date fmt = (Return None, fs1) →
  is_Some (fs1 !! (dataDir ++ [date +:+ ".tar." +:+ fmt]))
  ∧ ∀ q, (dataDir ++ [date]) `prefix_of` q → fs1 !! q = None.
Proof.
  intros Hstat. rewrite CompressAndRemove_unfold.
  destruct (CompressDir flt fs dataDir date fmt) as [[[e|]|m] fs0] eqn:Hc;
    try done.
  rewrite RemoveAll_err.
  destruct (flt OpRemoveAll (dataDir ++ [date])) eqn:Hrm; [done|].
  intros [= <-].
  apply (CompressDir_ok_container _ _ _ _ _ _ Hstat) in Hc.
  split.
  - rewrite RemoveAll_outside; [done|apply tarPath_outside_root].
  - intros q Hq. by apply RemoveAll_inside.
Qed.

Lemma CompressAndRemove_keeps_none flt fs dataDir date fmt q :
  q ≠ dataDir ++ [date +:+ ".tar." +:+ fmt] → fs !! q = None →
  (CompressAndRemove flt fs dataDir date fmt).2 !! q = None.
Proof.
  intros Hne Hq. rewrite CompressAndRemove_unfold.
  pose proof (CompressDir_outside flt fs dataDir date fmt q Hne) as Hc.
  destruct (CompressDir flt fs dataDir date fmt) as [[[e|]|m] fs1];
    simpl in *; try congruence.
  unfold os.RemoveAll. destruct (flt OpRemoveAll _); simpl; [congruence|].
  apply map_lookup_filter_None. left. congruence.
Qed.

Lemma CompressAndRemove_keeps_container flt fs dataDir date fmt q :
  ¬ (dataDir ++ [date]) `prefix_of` q → is_Some (fs !! q) →
  is_Some ((CompressAndRemove flt fs dataDir date fmt).2 !! q).
Proof.
  intros Hout [n Hq].
  destruct (decide (q = dataDir ++ [date +:+ ".tar." +:+ fmt])) as [->|Hne].
  - rewrite CompressAndRemove_unfold,
      (CompressDir_exists flt fs dataDir date fmt n Hq). simpl.
    rewrite RemoveAll_outside by done. eauto.
  - rewrite CompressAndRemove_frame by done. eauto.
Qed.

(** Rotating another month keeps a rotated month rotated. *)
Lemma rotated_preserved flt fs storage fmt thenName tb u' d' :
  is_Some (time.parseMonth d') →
  rotated fs storage fmt thenName tb →
  rotated (CompressAndRemove flt fs (storage ++ [u']) d' fmt).2
          storage fmt thenName tb.
Proof.
  intros Hd' (u & d & -> & Hd & Hlt & Htb & Hgone).
  exists u, d. split; [done|]. split; [done|]. split; [done|]. split.
  - apply CompressAndRemove_keeps_container; [|done].
    rewrite <- snoc2. intros H. apply prefix_app_inv in H.
    apply prefix_cons_inv_2, prefix_cons_inv_1 in H.
    by apply (month_ne_container d' d fmt).
  - intros q Hq. apply CompressAndRemove_keeps_none; [|by apply Hgone].
    intros ->. rewrite <- snoc2 in Hq. apply prefix_app_inv in Hq.
    apply prefix_cons_inv_2, prefix_cons_inv_1 in Hq.
    by apply (month_ne_container d d' fmt).
Qed.

Lemma sweepDates_rotated flt fmt thenName storage u dateDirs fs tarballs tbs fs' :
  (∀ p, flt OpStat p = false) →
  (∀ tb, tb ∈ tarballs → rotated fs storage fmt thenName tb) →
  sweepDates flt fmt thenName (storage ++ [u]) dateDirs fs tarballs
  = (Swept tbs, fs') →
  ∀ tb, tb ∈ tbs → rotated fs' storage fmt thenName tb.
Proof.
  intros Hstat. revert fs tarballs.
  induction dateDirs as [|[d isDir] rest IH]; intros fs tarballs Hinv; simpl.
  - intros [= <- <-]. done.
  - destruct isDir; simpl; [|by apply IH].
    destruct (bool_decide (is_Some (time.Parse d))) eqn:Hp; simpl; [|by apply IH].
    apply bool_decide_eq_true, Parse_parseMonth in Hp.
    destruct (String.ltb d thenName) eqn:Hlt; simpl; [|by apply IH].
    destruct (CompressAndRemove flt fs (storage ++ [u]) d fmt)
      as [[[e|]|m] fs1] eqn:Hc; try done.
    apply IH. intros tb [Hin| ->%list_elem_of_singleton]%elem_of_app.
    + pose proof (rotated_preserved flt fs storage fmt thenName tb u d Hp
                    (Hinv tb Hin)) as H. by rewrite Hc in H.
    + destruct (CompressAndRemove_ok flt fs fs1 _ d fmt (Hstat _) Hc)
        as [Htb Hgone].
      exists u, d. rewrite snoc2. repeat split; try done.
      intros q Hq. apply Hgone. by rewrite <- snoc2.
Qed.

Lemma sweepUsers_rotated flt fmt thenName storage userDirs fs tarballs tbs fs' :
  (∀ p, flt OpStat p = false) →
  (∀ tb, tb ∈ tarballs → rotated fs storage fmt thenName tb) →
  sweepUsers flt fmt thenName storage userDirs fs tarballs = (Swept tbs, fs') →
  ∀ tb, tb ∈ tbs → rotated fs' storage fmt thenName tb.
Proof.
  intros Hstat. revert fs tarballs.
  induction userDirs as [|[u isDir] rest IH]; intros fs tarballs Hinv; simpl.
  - intros [= <- <-]. done.
  - destruct isDir; simpl; [|by apply IH].
    destruct (os.ReadDir flt fs (storage ++ [u])) as [e|dateDirs]; [by apply IH|].
    destruct (sweepDates flt fmt thenName (storage ++ [u]) dateDirs fs tarballs)
      as [[tb1|e|m] fs1] eqn:Hd; try done.
    apply IH. by apply (sweepDates_rotated _ _ _ _ _ _ _ _ _ _ Hstat Hinv Hd).
Qed.

(** X20: when a sweep returns its list of tarballs, every tarball in the
    list is the container of a month before the cutoff, the container
    exists, and the month's live directory is gone (provided the existence
    check on containers does not itself fail). *)
Theorem sweep_reports_rotated_months flt s fs now stale tbs fs' :
  (∀ p, flt OpStat p = false) →
  CompressAll flt s fs now stale = (Swept tbs, fs') →
  ∀ tb, tb ∈ tbs →
    rotated fs' (storage s) (compress s)
            (time.Format (time.Add now (- stale))) tb.
Proof.
  intros Hstat. unfold CompressAll.
  destruct (os.ReadDir flt fs (storage s)) as [e|userDirs]; [done|].
  intros H.
  apply (sweepUsers_rotated flt _ _ _ userDirs fs [] tbs fs' Hstat); [|done].
  by intros tb ?%elem_of_nil.
Qed.

Lemma sweep_reports_rotated_months_witness :
  rotated swept_fs (storage srv) (compress srv)
    (time.Format (time.Add sweep_now (- staleAfter)))
    ["data"; "alice"; "2024-01.tar.zst"].
Proof.
  apply (sweep_reports_rotated_months no_faults srv sweep_fs sweep_now
           staleAfter swept_tarballs swept_fs).
  - intros p. reflexivity.
  - apply pair_eta_fst. vm_compute. reflexivity.
  - left.
Defined.

End SweepMore.

(** ** The formats of the constructor, the writer and the reader *)

Section Formats.


End Formats.
